(** * SteamTracker: price-history and event-detection engine

    A shallow embedding of the store-facing functions of
    [steam_price_bot.py] and of the body of its hourly monitoring loop,
    followed by the properties of the engine.

    Modelling conventions.
    - The SQLite file [steam_prices.db] is the record [db], one field per
      relation of [init_db].  A relation with a declared primary key is a
      finite map from that key; the three relations keyed by an
      engine-assigned [id INTEGER PRIMARY KEY AUTOINCREMENT] are lists in
      insertion order.  The surrogate [id] itself, and the engine's
      counter behind it, are not represented: no statement of the
      program reads the value of an id (the only [SELECT id] is tested
      against [None]).
    - A Python float price is the rational it denotes ([Q]); the order
      comparisons of the source are the comparisons of [Q].  The one
      arithmetic expression on prices, the drop in percent, is also
      given on binary64 floats.
    - [datetime.now()] is an explicit argument of every function that
      reads the clock.
    - Every store function opens its own connection inside
      [try / except / finally]; what happens when the store is not
      available is the [fault] argument. *)

From Stdlib Require Import ZArith QArith Qminmax Lqa Floats.
From stdpp Require Import gmap strings list fin_maps.

Local Open Scope Z_scope.

(** ** Rational prices *)

(** [x < y] on prices, as a boolean. *)
Definition Qlt_bool (x y : Q) : bool :=
  (Qnum x * QDen y <? Qnum y * QDen x)%Z.

(** Python truthiness of a float: [0.0] is falsy. *)
Definition Qtruthy (x : Q) : bool := negb (Qeq_bool x 0).

(** ** The persisted relations of [init_db] *)

Record price_row := PriceRow {
  ph_price : Q;
  ph_discount : Z
}.

Record tracked_game := TrackedGame {
  tg_name : string;
  tg_last_check : string;
  tg_is_free : bool;
  tg_image_url : option string
}.

Record low_row := LowRow {
  lowest_price : Q;
  low_date : string
}.

Record server_setting := ServerSetting {
  notification_channel_id : Z;
  setup_date : string;
  enable_sale_notifications : bool
}.

Record new_low_event := NewLowEvent {
  nle_app_id : Z;
  nle_game_name : string;
  nle_region : string;
  nle_price : Q;
  nle_currency : string;
  nle_date : string
}.

Record free_game_event := FreeGameEvent {
  fge_app_id : Z;
  fge_game_name : string;
  fge_date : string
}.

Record sale_notification := SaleNotification {
  sn_sale_name : string;
  sn_notification_date : string;
  sn_year : Z
}.

(** The relation [user_wishlist] is created by [init_db] and never read or
    written afterwards; it is left out. *)
Record db := Db {
  price_history : gmap (Z * string * string) price_row;
  tracked_games : gmap Z tracked_game;
  historical_low : gmap (Z * string) low_row;
  server_settings : gmap Z server_setting;
  new_low_events : list new_low_event;
  free_game_events : list free_game_event;
  sale_notifications : list sale_notification
}.

Definition empty_db : db := Db ∅ ∅ ∅ ∅ [] [] [].

Definition set_price_history (m : gmap (Z * string * string) price_row) (d : db) : db :=
  Db m (tracked_games d) (historical_low d) (server_settings d)
     (new_low_events d) (free_game_events d) (sale_notifications d).

Definition set_tracked_games (m : gmap Z tracked_game) (d : db) : db :=
  Db (price_history d) m (historical_low d) (server_settings d)
     (new_low_events d) (free_game_events d) (sale_notifications d).

Definition set_historical_low (m : gmap (Z * string) low_row) (d : db) : db :=
  Db (price_history d) (tracked_games d) m (server_settings d)
     (new_low_events d) (free_game_events d) (sale_notifications d).

Definition set_server_settings (m : gmap Z server_setting) (d : db) : db :=
  Db (price_history d) (tracked_games d) (historical_low d) m
     (new_low_events d) (free_game_events d) (sale_notifications d).

Definition set_new_low_events (l : list new_low_event) (d : db) : db :=
  Db (price_history d) (tracked_games d) (historical_low d) (server_settings d)
     l (free_game_events d) (sale_notifications d).

Definition set_free_game_events (l : list free_game_event) (d : db) : db :=
  Db (price_history d) (tracked_games d) (historical_low d) (server_settings d)
     (new_low_events d) l (sale_notifications d).

Definition set_sale_notifications (l : list sale_notification) (d : db) : db :=
  Db (price_history d) (tracked_games d) (historical_low d) (server_settings d)
     (new_low_events d) (free_game_events d) l.

(** ** Store availability

    Every store function has the shape
<<
    try:
        conn = sqlite3.connect('steam_prices.db')
        ... execute ... ; conn.commit() ; return value
    except Exception as e:
        logger.error(...) ; return default
    finally:
        conn.close()
>>
    - [NoFault]: the statements run and are committed.
    - [ExecFault]: [connect] succeeds and a later statement (or the
      commit) raises; the handler returns the default, and closing the
      connection discards what was not committed.
    - [ConnectFault]: [connect] itself raises, so [conn] is never bound;
      the handler runs, and then [conn.close()] in the [finally] clause
      raises [UnboundLocalError], which leaves the function. *)
Inductive fault := NoFault | ExecFault | ConnectFault.

Inductive outcome (A : Type) :=
| Returned (a : A)
| Raised.
Arguments Returned {A} a.
Arguments Raised {A}.

Definition with_connection {A} (f : fault) (default : A)
    (body : db -> db * A) (d : db) : db * outcome A :=
  match f with
  | NoFault => let '(d', a) := body d in (d', Returned a)
  | ExecFault => (d, Returned default)
  | ConnectFault => (d, Raised)
  end.

(** ** Price checks *)

(** [check_historical_low(app_id, region, current_price)]; the result is
    [(is_new_low, old_price, price_drop_percent)]. *)
Definition check_historical_low (f : fault) (app_id : Z) (region : string)
    (current_price : Q) (now : string) : db -> db * outcome (bool * option Q * Q) :=
  with_connection f (false, None, 0%Q) (fun d =>
    match historical_low d !! (app_id, region) with
    | None =>
        (set_historical_low
           (<[(app_id, region) := LowRow current_price now]> (historical_low d)) d,
         (true, None, 0%Q))
    | Some result =>
        if Qlt_bool current_price (lowest_price result) && Qlt_bool 0 current_price then
          let old_price := lowest_price result in
          let price_drop_percent := (((old_price - current_price) / old_price) * 100)%Q in
          (set_historical_low
             (<[(app_id, region) := LowRow current_price now]> (historical_low d)) d,
           (true, Some old_price, price_drop_percent))
        else (d, (false, None, 0%Q))
    end).

(** [check_free_game(app_id, is_currently_free)]. *)
Definition check_free_game (f : fault) (app_id : Z) (is_currently_free : bool)
    : db -> db * outcome bool :=
  with_connection f false (fun d =>
    match tracked_games d !! app_id with
    | Some result =>
        let was_free := tg_is_free result in
        if negb was_free && is_currently_free then
          (set_tracked_games
             (<[app_id := TrackedGame (tg_name result) (tg_last_check result)
                            is_currently_free (tg_image_url result)]> (tracked_games d)) d,
           true)
        else (d, false)
    | None => (d, false)
    end).

(** [add_tracked_game]: [INSERT OR REPLACE] on the primary key [app_id]. *)
Definition add_tracked_game (f : fault) (app_id : Z) (name : string)
    (is_free : bool) (image_url : option string) (now : string)
    : db -> db * outcome unit :=
  with_connection f tt (fun d =>
    (set_tracked_games
       (<[app_id := TrackedGame name now is_free image_url]> (tracked_games d)) d, tt)).

(** [record_price]: [INSERT OR REPLACE] on [(app_id, region, timestamp)]. *)
Definition record_price (f : fault) (app_id : Z) (region : string)
    (price : Q) (discount : Z) (now : string) : db -> db * outcome unit :=
  with_connection f tt (fun d =>
    (set_price_history
       (<[(app_id, region, now) := PriceRow price discount]> (price_history d)) d, tt)).

Definition record_new_low_event (f : fault) (app_id : Z) (game_name region : string)
    (price : Q) (currency : string) (now : string) : db -> db * outcome unit :=
  with_connection f tt (fun d =>
    (set_new_low_events
       (new_low_events d ++ [NewLowEvent app_id game_name region price currency now]) d, tt)).

Definition record_free_game_event (f : fault) (app_id : Z) (game_name : string)
    (now : string) : db -> db * outcome unit :=
  with_connection f tt (fun d =>
    (set_free_game_events
       (free_game_events d ++ [FreeGameEvent app_id game_name now]) d, tt)).

(** [get_historical_low_price]: the row [(lowest_price, date)] or [None]. *)
Definition get_historical_low_price (f : fault) (app_id : Z) (region : string)
    : db -> db * outcome (option (Q * string)) :=
  with_connection f None (fun d =>
    (d, (fun r => (lowest_price r, low_date r)) <$> historical_low d !! (app_id, region))).

(** ** The monitoring loop

    What the storefront returned for one game ([get_steam_game_info]):
    only the keys [monitor_prices] reads.  An absent key is [None]. *)
Record price_overview := PriceOverview {
  final : Z;
  currency : string;
  discount_percent : option Z
}.

Record game_info := GameInfo {
  gi_is_free : option bool;
  gi_price_overview : option price_overview;
  gi_header_image : option string
}.

(** The two embeds [monitor_prices] builds, by the values they carry.
    [nl_drop] holds [(price_drop_percent, old_price)] when the two
    fields guarded by [if old_price:] are added. *)
Inductive embed :=
| FreeGameNotice (app_id : Z) (name : string) (image : option string)
| NewLowNotice (app_id : Z) (name : string) (cur : string) (current_price : Q)
    (discount : Z) (nl_drop : option (Q * Q)) (thumbnail : option string).

Definition is_new_low_notice (e : embed) : bool :=
  match e with NewLowNotice _ _ _ _ _ _ _ => true | _ => false end.

Definition is_free_game_notice (e : embed) : bool :=
  match e with FreeGameNotice _ _ _ => true | _ => false end.

(** A computation of the loop body: it threads the store, collects the
    embeds handed to the channels and may be left by an exception. *)
Definition task (A : Type) : Type := db -> db * list embed * outcome A.

Definition task_ret {A} (a : A) : task A := fun d => (d, [], Returned a).

Definition task_bind {A B} (m : task A) (k : A -> task B) : task B :=
  fun d =>
    match m d with
    | (d1, out1, Returned a) =>
        let '(d2, out2, r) := k a d1 in (d2, out1 ++ out2, r)
    | (d1, out1, Raised) => (d1, out1, Raised)
    end.

Definition call {A} (f : db -> db * outcome A) : task A :=
  fun d => let '(d', r) := f d in (d', [], r).

Definition send (e : embed) : task unit := fun d => (d, [e], Returned tt).

Notation "'let*' x ':=' m 'in' k" := (task_bind m (fun x => k))
  (at level 10, x name, m at level 100, k at level 200).

(** Availability of the store at each of the five store calls of the
    loop body. *)
Record faults := Faults {
  on_check_free_game : fault;
  on_record_free_game_event : fault;
  on_record_price : fault;
  on_check_historical_low : fault;
  on_record_new_low_event : fault
}.

Definition no_faults : faults := Faults NoFault NoFault NoFault NoFault NoFault.

(** The statements of the [for app_id, name in games] loop of
    [monitor_prices] after a successful fetch of the game in region "tw".
    The loop is entered only when [get_all_notification_channels()] is
    not empty.  Handing an embed to the loop over the channels is [send];
    deliveries are taken to succeed. *)
Definition monitor_game_task (flt : faults) (app_id : Z) (name : string)
    (info : game_info) (now : string) : task unit :=
  let is_free := default false (gi_is_free info) in
  let* became_free := call (check_free_game (on_check_free_game flt) app_id is_free) in
  let* _ :=
    (if became_free : bool then
       let* _ := call (record_free_game_event (on_record_free_game_event flt) app_id name now) in
       send (FreeGameNotice app_id name (gi_header_image info))
     else task_ret tt) in
  match gi_price_overview info with
  | Some price_data =>
      if negb is_free then
        let current_price := (inject_Z (final price_data) / 100)%Q in
        let discount := default 0 (discount_percent price_data) in
        let* _ := call (record_price (on_record_price flt) app_id "tw" current_price discount now) in
        let* r := call (check_historical_low (on_check_historical_low flt) app_id "tw" current_price now) in
        let '(is_new_low, old_price, price_drop_percent) := r in
        if is_new_low : bool then
          let* _ := call (record_new_low_event (on_record_new_low_event flt) app_id name
                            "台灣" current_price (currency price_data) now) in
          send (NewLowNotice app_id name (currency price_data) current_price discount
                  (match old_price with
                   | Some old => if Qtruthy old then Some (price_drop_percent, old) else None
                   | None => None
                   end)
                  (gi_header_image info))
        else task_ret tt
      else task_ret tt
  | None => task_ret tt
  end.

(** The loop body inside its [try / except Exception]: an exception is
    logged and the loop goes on with the store and the embeds as they
    are at that point. *)
Definition monitor_game (flt : faults) (app_id : Z) (name : string)
    (info : game_info) (now : string) (d : db) : db * list embed :=
  let '(d', out, _) := monitor_game_task flt app_id name info now d in (d', out).

(** Successive fetch results of one tracked game, one per hourly cycle,
    each with the time of its cycle; the embeds are collected per cycle. *)
Fixpoint monitor_game_seq (app_id : Z) (name : string)
    (obs : list (game_info * string)) (d : db) : db * list (list embed) :=
  match obs with
  | [] => (d, [])
  | (info, now) :: rest =>
      let '(d1, out) := monitor_game no_faults app_id name info now d in
      let '(d2, outs) := monitor_game_seq app_id name rest d1 in
      (d2, out :: outs)
  end.

(** ** Removing a game: the [/移除追蹤] command

    [untrack_game] has its own [try / except] without a [finally]: when
    the store is not available the handler answers that the operation
    failed, and nothing was committed. *)
Inductive untrack_reply :=
| Removed (game_name : string)
| NotTracked (app_id : Z)
| OperationFailed.

Definition untrack_game (f : fault) (app_id : Z) (d : db) : db * untrack_reply :=
  match f with
  | NoFault =>
      match tracked_games d !! app_id with
      | Some result =>
          (set_tracked_games (delete app_id (tracked_games d)) d, Removed (tg_name result))
      | None => (d, NotTracked app_id)
      end
  | _ => (d, OperationFailed)
  end.

(** ** Sale announcements *)

Definition same_sale (sale_name : string) (year : Z) (r : sale_notification) : bool :=
  bool_decide (sn_sale_name r = sale_name) && (sn_year r =? year).

(** [is_sale_notified]: [SELECT id ... WHERE sale_name=? AND year=?],
    [fetchone() is not None]. *)
Definition is_sale_notified (f : fault) (sale_name : string) (year : Z)
    : db -> db * outcome bool :=
  with_connection f false (fun d =>
    (d, existsb (same_sale sale_name year) (sale_notifications d))).

(** [mark_sale_notified]: [INSERT OR IGNORE] under [UNIQUE(sale_name, year)]. *)
Definition mark_sale_notified (f : fault) (sale_name : string) (year : Z)
    (now : string) : db -> db * outcome unit :=
  with_connection f tt (fun d =>
    if existsb (same_sale sale_name year) (sale_notifications d) then (d, tt)
    else (set_sale_notifications
            (sale_notifications d ++ [SaleNotification sale_name now year]) d, tt)).

(** ** The sales calendar

    [datetime] of the Python library: a proleptic Gregorian date with a
    time of day.  Ordering and subtraction go through the number of
    microseconds since the start of day one; [timedelta.days] is the
    floor of the difference in days. *)
Record datetime := DateTime {
  year : Z;
  month : Z;
  day : Z;
  hour : Z;
  minute : Z;
  second : Z;
  microsecond : Z
}.

(** [datetime(year, month, day)]: midnight of that date. *)
Definition midnight (y m d : Z) : datetime := DateTime y m d 0 0 0 0.

Definition is_leap (y : Z) : bool :=
  (y mod 4 =? 0) && (negb (y mod 100 =? 0) || (y mod 400 =? 0)).

Definition days_before_year (y : Z) : Z :=
  let p := y - 1 in p * 365 + p / 4 - p / 100 + p / 400.

Definition days_before_month (y m : Z) : Z :=
  nth (Z.to_nat (m - 1)) [0; 31; 59; 90; 120; 151; 181; 212; 243; 273; 304; 334] 0
  + (if (2 <? m) && is_leap y then 1 else 0).

Definition toordinal (t : datetime) : Z :=
  days_before_year (year t) + days_before_month (year t) (month t) + day t.

Definition microseconds_per_day : Z := 86400 * 1000000.

(** Microseconds since midnight. *)
Definition time_of_day (t : datetime) : Z :=
  ((hour t * 60 + minute t) * 60 + second t) * 1000000 + microsecond t.

Definition to_microseconds (t : datetime) : Z :=
  toordinal t * microseconds_per_day + time_of_day t.

(** [a < b] on datetimes. *)
Definition datetime_ltb (a b : datetime) : bool :=
  to_microseconds a <? to_microseconds b.

(** [(a - b).days]. *)
Definition timedelta_days (a b : datetime) : Z :=
  (to_microseconds a - to_microseconds b) / microseconds_per_day.

Record sale_info := SaleInfo {
  si_month : Z;
  si_start_day : Z;
  si_duration : Z;
  si_emoji : string
}.

Definition STEAM_SALES_CALENDAR : list (string * sale_info) :=
  [ ("春季特賣", SaleInfo 3 14 14 "🌸");
    ("夏季特賣", SaleInfo 6 23 14 "☀️");
    ("秋季特賣", SaleInfo 11 21 14 "🍂");
    ("冬季特賣", SaleInfo 12 20 14 "❄️");
    ("農曆新年特賣", SaleInfo 2 1 7 "🧧");
    ("萬聖節特賣", SaleInfo 10 28 7 "🎃") ].

Record upcoming_sale := UpcomingSale {
  us_name : string;
  us_date : datetime;
  us_days_until : Z;
  us_emoji : string;
  us_duration : Z
}.

(** The start of the sale that [check_upcoming_sales] measures against. *)
Definition sale_date (now : datetime) (info : sale_info) : datetime :=
  let this_year := midnight (year now) (si_month info) (si_start_day info) in
  if datetime_ltb this_year now
  then midnight (year now + 1) (si_month info) (si_start_day info)
  else this_year.

Definition days_until (now : datetime) (info : sale_info) : Z :=
  timedelta_days (sale_date now info) now.

(** [check_upcoming_sales()], over a calendar. *)
Fixpoint upcoming_sales_of (calendar : list (string * sale_info)) (now : datetime)
    : list upcoming_sale :=
  match calendar with
  | [] => []
  | (sale_name, info) :: rest =>
      let n := days_until now info in
      if (0 <=? n) && (n <=? 7)
      then UpcomingSale sale_name (sale_date now info) n (si_emoji info) (si_duration info)
             :: upcoming_sales_of rest now
      else upcoming_sales_of rest now
  end.

Definition check_upcoming_sales (now : datetime) : list upcoming_sale :=
  upcoming_sales_of STEAM_SALES_CALENDAR now.

(** The first line of the "starts in" field of the announcement built by
    [check_sales_calendar] from [days_until]. *)
Inductive time_text := StartsToday | StartsTomorrow | StartsInDays (n : Z).

Definition announcement_time_text (s : upcoming_sale) : time_text :=
  if us_days_until s =? 0 then StartsToday
  else if us_days_until s =? 1 then StartsTomorrow
  else StartsInDays (us_days_until s).

(** ** Server settings *)

(** [set_notification_channel]: [INSERT OR REPLACE] on [guild_id]. *)
Definition set_notification_channel (f : fault) (guild_id channel_id : Z)
    (enable_sale : bool) (now : string) : db -> db * outcome unit :=
  with_connection f tt (fun d =>
    (set_server_settings
       (<[guild_id := ServerSetting channel_id now enable_sale]> (server_settings d)) d, tt)).

(** [get_all_notification_channels]: the rows
    [(guild_id, notification_channel_id, enable_sale_notifications)], in
    the order the engine yields them. *)
Definition get_all_notification_channels (f : fault)
    : db -> db * outcome (list (Z * Z * bool)) :=
  with_connection f [] (fun d =>
    (d, (fun r => (fst r, notification_channel_id (snd r),
                   enable_sale_notifications (snd r)))
          <$> map_to_list (server_settings d))).

(** ** Observations and runs *)

(** The price [monitor_prices] computes from a fetch result, when it
    reaches the price check at all: the game is not free and the result
    has a [price_overview]. *)
Definition observed_price (info : game_info) : option Q :=
  if default false (gi_is_free info) then None
  else (fun p => (inject_Z (final p) / 100)%Q) <$> gi_price_overview info.

(** A fetch result of a paid game priced [cents] hundredths. *)
Definition paid (cents : Z) (cur : string) : game_info :=
  GameInfo (Some false) (Some (PriceOverview cents cur None)) None.

(** A fetch result of a free game. *)
Definition free : game_info := GameInfo (Some true) None None.

(** The stored minimum of a pair, if it has a row. *)
Definition stored_low (d : db) (app_id : Z) (region : string) : option Q :=
  lowest_price <$> historical_low d !! (app_id, region).

(** The prices the loop computes from a sequence of fetch results. *)
Definition prices_of (obs : list (game_info * string)) : list Q :=
  omap (fun o => observed_price (fst o)) obs.

(** The minimum of [p0 :: ps]. *)
Definition lowest_of (p0 : Q) (ps : list Q) : Q := fold_left Qmin ps p0.

(** The prices above zero. *)
Definition positive_prices (ps : list Q) : list Q := List.filter (Qlt_bool 0) ps.

(** Successive calls of [check_historical_low] for one pair, each with its
    price and its time. *)
Fixpoint check_historical_low_seq (app_id : Z) (region : string)
    (calls : list (Q * string)) (d : db) : db :=
  match calls with
  | [] => d
  | (p, now) :: rest =>
      check_historical_low_seq app_id region rest
        (fst (check_historical_low NoFault app_id region p now d))
  end.

(** [price_drop_percent] as [check_historical_low] computes it on Python
    floats, in IEEE 754 binary64. *)
Definition price_drop_percent_binary64 (old_price current_price : float) : float :=
  (((old_price - current_price) / old_price) * 100)%float.

(** ** The stores the program can be in *)

(** The columns of [UNIQUE(sale_name, year)]. *)
Definition sale_key (r : sale_notification) : string * Z := (sn_sale_name r, sn_year r).

(** From the store [init_db] creates, by the modelled operations in any
    order, the store available or not at each call. *)
Inductive reachable : db -> Prop :=
| reach_init : reachable empty_db
| reach_monitor flt app_id name info now d :
    reachable d -> reachable (fst (monitor_game flt app_id name info now d))
| reach_track f app_id name is_free image_url now d :
    reachable d -> reachable (fst (add_tracked_game f app_id name is_free image_url now d))
| reach_untrack f app_id d :
    reachable d -> reachable (fst (untrack_game f app_id d))
| reach_set_channel f guild_id channel_id enable_sale now d :
    reachable d ->
    reachable (fst (set_notification_channel f guild_id channel_id enable_sale now d))
| reach_mark f sale_name y now d :
    reachable d -> reachable (fst (mark_sale_notified f sale_name y now d)).

(** ** The hourly cycle: [monitor_prices]

    The games are read first, by a statement of the task's own
    connection; any failure there, like an exception of
    [get_all_notification_channels], reaches the handler around the whole
    task, which logs it and ends the cycle.  Without a configured channel
    the cycle ends before the first fetch.  [fetch] is the answer of
    [get_steam_game_info(app_id, 'tw')] in this cycle, [None] when it
    gave nothing; a game without an answer is skipped. *)
Fixpoint monitor_games (flts : Z -> faults) (fetch : Z -> option game_info)
    (now : string) (games : list (Z * string)) (d : db) : db * list embed :=
  match games with
  | [] => (d, [])
  | (app_id, name) :: rest =>
      match fetch app_id with
      | None => monitor_games flts fetch now rest d
      | Some info =>
          let '(d1, out) := monitor_game (flts app_id) app_id name info now d in
          let '(d2, outs) := monitor_games flts fetch now rest d1 in
          (d2, out ++ outs)
      end
  end.

(** [SELECT app_id, name FROM tracked_games], in the order the engine
    yields the rows. *)
Definition select_games (d : db) : list (Z * string) :=
  (fun r => (fst r, tg_name (snd r))) <$> map_to_list (tracked_games d).

Definition monitor_prices (on_select on_channels : fault) (flts : Z -> faults)
    (fetch : Z -> option game_info) (now : string) (d : db) : db * list embed :=
  match on_select with
  | NoFault =>
      match get_all_notification_channels on_channels d with
      | (_, Returned (_ :: _)) => monitor_games flts fetch now (select_games d) d
      | (_, Returned []) => (d, [])
      | (_, Raised) => (d, [])
      end
  | _ => (d, [])
  end.

(** ** The twice-daily task: [check_sales_calendar] *)

(** The embed announcing a sale, by the values it carries. *)
Record sale_embed := SaleEmbed {
  se_name : string;
  se_emoji : string;
  se_time_text : time_text;
  se_date : datetime;
  se_duration : Z
}.

Definition sale_embed_of (s : upcoming_sale) : sale_embed :=
  SaleEmbed (us_name s) (us_emoji s) (announcement_time_text s) (us_date s) (us_duration s).

(** What [bot.get_channel(channel_id)] and [channel.send] do at one row
    of [channels_info]: the bot does not resolve the channel, the message
    is delivered, or [send] raises. *)
Inductive channel_state := Unresolved | Delivers | SendRaises.

(** The loop over [channels_info] for one embed: it goes to every channel
    whose row enables sale notifications and which [bot.get_channel]
    resolves; the result lists the channel ids written to, in order.
    When a [send] raises, the exception leaves the loop: the channels
    after it are not served.  [chan guild_id channel_id] is what happens
    at the row of [guild_id]. *)
Fixpoint deliver_sale (chan : Z -> Z -> channel_state)
    (channels_info : list (Z * Z * bool))
    (e : sale_embed) : list (Z * sale_embed) * outcome unit :=
  match channels_info with
  | [] => ([], Returned tt)
  | (guild_id, channel_id, enable_sale) :: rest =>
      if enable_sale : bool then
        match chan guild_id channel_id with
        | Unresolved => deliver_sale chan rest e
        | Delivers =>
            let '(sent, r) := deliver_sale chan rest e in ((channel_id, e) :: sent, r)
        | SendRaises => ([], Raised)
        end
      else deliver_sale chan rest e
  end.

(** Availability of the store at the store calls of the task; the calls
    made for a sale are told apart by the sale's name. *)
Record sale_faults := SaleFaults {
  on_get_channels : fault;
  on_is_sale_notified : string -> fault;
  on_mark_sale_notified : string -> fault
}.

Definition no_sale_faults : sale_faults :=
  SaleFaults NoFault (fun _ => NoFault) (fun _ => NoFault).

(** The loop [for sale in upcoming_sales].  A sale is marked after its
    deliveries; an exception of a [send] leaves the loop before the mark,
    and the sales after it are not looked at.  The deliveries of a run
    are told apart by the sale's name and the row: [chan name guild_id
    channel_id]. *)
Fixpoint announce_sales (flt : sale_faults) (chan : string -> Z -> Z -> channel_state)
    (channels_info : list (Z * Z * bool)) (stamp : string)
    (upcoming : list upcoming_sale) (d : db)
    : db * list (Z * sale_embed) * outcome unit :=
  match upcoming with
  | [] => (d, [], Returned tt)
  | sale :: rest =>
      match is_sale_notified (on_is_sale_notified flt (us_name sale))
              (us_name sale) (year (us_date sale)) d with
      | (d1, Raised) => (d1, [], Raised)
      | (d1, Returned true) => announce_sales flt chan channels_info stamp rest d1
      | (d1, Returned false) =>
          match deliver_sale (chan (us_name sale)) channels_info (sale_embed_of sale) with
          | (sent, Raised) => (d1, sent, Raised)
          | (sent, Returned _) =>
              match mark_sale_notified (on_mark_sale_notified flt (us_name sale))
                      (us_name sale) (year (us_date sale)) stamp d1 with
              | (d2, Raised) => (d2, sent, Raised)
              | (d2, Returned _) =>
                  let '(d3, out, r) :=
                    announce_sales flt chan channels_info stamp rest d2 in
                  (d3, sent ++ out, r)
              end
          end
      end
  end.

(** [check_sales_calendar], run at [now]; [stamp] is the text of the
    clock written by [mark_sale_notified].  An exception leaves the task
    through its handler, with the store and the messages as they are. *)
Definition check_sales_calendar (flt : sale_faults) (chan : string -> Z -> Z -> channel_state)
    (now : datetime) (stamp : string) (d : db) : db * list (Z * sale_embed) :=
  match check_upcoming_sales now with
  | [] => (d, [])
  | upcoming =>
      match get_all_notification_channels (on_get_channels flt) d with
      | (d1, Returned (c :: cs)) =>
          let '(d2, out, _) := announce_sales flt chan (c :: cs) stamp upcoming d1 in
          (d2, out)
      | (d1, Returned []) => (d1, [])
      | (d1, Raised) => (d1, [])
      end
  end.

(** No row that enables sale notifications has a [send] that raises. *)
Definition sends_succeed (chan : Z -> Z -> channel_state)
    (channels_info : list (Z * Z * bool)) : Prop :=
  forall g c, (g, c, true) ∈ channels_info -> chan g c <> SendRaises.

(** ** Tracking a game: the [/追蹤] command

    [fetched] is the answer of [get_steam_game_info(app_id)]: the game's
    [name] key, if present, with the keys the loop reads.  The low is read
    before the game is stored, so an exception of that read reaches the
    command's handler and the game is not stored. *)
Inductive track_reply :=
| TrackAdded (name : string) (is_free : bool)
    (current_price_info : option (Q * string * Z)) (historical_low_info : option (Q * string))
| TrackNoInfo
| TrackFailed.

Definition track_game (on_low on_add : fault) (app_id : Z)
    (fetched : option (option string * game_info)) (now : string) (d : db)
    : db * track_reply :=
  match fetched with
  | None => (d, TrackNoInfo)
  | Some (game_name, info) =>
      let name := default "Unknown" game_name in
      let is_free := default false (gi_is_free info) in
      match get_historical_low_price on_low app_id "tw" d with
      | (d1, Raised) => (d1, TrackFailed)
      | (d1, Returned historical_low_info) =>
          let current_price_info :=
            if negb is_free then
              (fun p => ((inject_Z (final p) / 100)%Q, currency p,
                         default 0 (discount_percent p))) <$> gi_price_overview info
            else None in
          match add_tracked_game on_add app_id name is_free (gi_header_image info) now d1 with
          | (d2, Raised) => (d2, TrackFailed)
          | (d2, Returned _) =>
              (d2, TrackAdded name is_free
                     (if is_free then None else current_price_info)
                     (if is_free then None else historical_low_info))
          end
      end
  end.

(** ** Prices by region: [fetch_price], [get_multi_region_prices] and the
    cheapest region of the [/價格] command *)

(** The [price_overview] object of an answer, each key present or not. *)
Record overview_json := OverviewJson {
  oj_final : option Z;
  oj_initial : option Z;
  oj_currency : option string;
  oj_discount_percent : option Z
}.

(** The [data] object: [is_free] by its truth value, [price_overview]
    when the key is present with a non-empty object. *)
Record game_data := GameData {
  gd_is_free : bool;
  gd_price_overview : option overview_json
}.

(** What a request gave: no answer (time-out or any exception inside
    [fetch_price]), or a status with the entry of the first key of the
    JSON body: its [success] flag and its [data]. *)
Inductive response :=
| NoResponse
| Response (status : Z) (success : bool) (data : option game_data).

Record region_price := RegionPrice {
  rp_code : string;
  rp_name : string;
  rp_price : Q;
  rp_original_price : option Q;
  rp_currency : string;
  rp_discount : Z;
  rp_is_free : bool
}.

Definition fetch_price (code name : string) (r : response) : option region_price :=
  match r with
  | Response status success (Some game_data) =>
      if (status =? 200) && success then
        if gd_is_free game_data then
          Some (RegionPrice code name 0 None "FREE" 0 true)
        else
          match gd_price_overview game_data with
          | Some po =>
              Some (RegionPrice code name
                      (inject_Z (default 0%Z (oj_final po)) / 100)%Q
                      (Some (inject_Z (default 0%Z (oj_initial po)) / 100)%Q)
                      (default "" (oj_currency po))
                      (default 0 (oj_discount_percent po))
                      false)
          | None => None
          end
      else None
  | _ => None
  end.

Definition REGIONS : list (string * string) :=
  [ ("tw", "台灣"); ("us", "美國"); ("uk", "英國"); ("jp", "日本"); ("cn", "中國");
    ("kr", "韓國"); ("hk", "香港"); ("ar", "阿根廷"); ("tr", "土耳其") ].

(** [get_multi_region_prices] over a list of regions: the dictionary
    from region name to result, in insertion order, of the requests that
    gave a result.  [respond] is the answer for a country code. *)
Definition multi_region_prices (regions : list (string * string))
    (respond : string -> response) : list (string * region_price) :=
  omap (fun '(code, name) =>
          (fun result => (rp_name result, result)) <$> fetch_price code name (respond code))
       regions.

Definition get_multi_region_prices (respond : string -> response)
    : list (string * region_price) :=
  multi_region_prices REGIONS respond.

(** One turn of the loop of [check_price] that looks for the cheapest
    region; [min_price] is [None] for [float('inf')]. *)
Definition cheapest_step (acc : option Q * option string)
    (entry : string * region_price) : option Q * option string :=
  let '(min_price, min_region) := acc in
  let '(region_name, price_info) := entry in
  if rp_is_free price_info then acc
  else
    let price := rp_price price_info in
    if Qlt_bool 0 price &&
       match min_price with Some m => Qlt_bool price m | None => true end
    then (Some price, Some region_name)
    else acc.

(** The region named in the footer: [min_region], when it is truthy. *)
Definition cheapest_region (prices : list (string * region_price)) : option string :=
  match snd (fold_left cheapest_step prices (None, None)) with
  | Some region_name => if bool_decide (region_name = "") then None else Some region_name
  | None => None
  end.

(** ** The [/歷史低價] command: the line comparing the current price
    with the stored low *)
Inductive low_status :=
| AtLowest
| AboveLowest (diff diff_percent : Q)
| NoStatus
| StatusRaises.

(** The percentage is a float division by the stored low: with a stored
    low of zero it raises [ZeroDivisionError], and the command answers
    with its failure message instead of the embed. *)
Definition low_status_of (current_price lowest_price : Q) : low_status :=
  if Qeq_bool current_price lowest_price then AtLowest
  else if Qlt_bool lowest_price current_price then
    if Qeq_bool lowest_price 0 then StatusRaises
    else AboveLowest (current_price - lowest_price)
                     (((current_price - lowest_price) / lowest_price) * 100)%Q
  else NoStatus.

(** ** What the monitoring task may change *)

(** The row of a game before and after: only the stored status may
    differ, and only by turning from paid to free. *)
Definition tracked_le (r r' : tracked_game) : Prop :=
  tg_name r' = tg_name r /\
  tg_last_check r' = tg_last_check r /\
  tg_image_url r' = tg_image_url r /\
  (tg_is_free r = true -> tg_is_free r' = true).

(** The store before and after: settings and sale marks are the same,
    the same games are tracked, no price or minimum row is lost, and the
    two event logs are only appended to. *)
Definition only_grows (d d' : db) : Prop :=
  server_settings d' = server_settings d /\
  sale_notifications d' = sale_notifications d /\
  (forall app_id : Z,
     option_Forall2 tracked_le (tracked_games d !! app_id) (tracked_games d' !! app_id)) /\
  dom (price_history d) ⊆ dom (price_history d') /\
  dom (historical_low d) ⊆ dom (historical_low d') /\
  new_low_events d `prefix_of` new_low_events d' /\
  free_game_events d `prefix_of` free_game_events d'.

(** A computation of the loop body relates the store it starts from to
    the store it ends with. *)
Definition task_keeps {A} (R : db -> db -> Prop) (m : task A) : Prop :=
  forall d : db, R d (fst (fst (m d))).

(** The store before and after, seen from one game: its tracked row, its
    price rows and its minimum rows are the same. *)
Definition same_game (app_id : Z) (d d' : db) : Prop :=
  tracked_games d' !! app_id = tracked_games d !! app_id /\
  (forall region t : string,
     price_history d' !! (app_id, region, t) = price_history d !! (app_id, region, t)) /\
  (forall region : string,
     historical_low d' !! (app_id, region) = historical_low d !! (app_id, region)).

(** The stored status of a game, if it has a row. *)
Definition stored_free (d : db) (app_id : Z) : option bool :=
  tg_is_free <$> tracked_games d !! app_id.

(** The number of cycles of a run in which a free-game embed was sent. *)
Definition free_cycles (outs : list (list embed)) : nat :=
  length (List.filter (existsb is_free_game_notice) outs).

(** The number of new-low embeds among the embeds of a run. *)
Definition new_low_notices (outs : list (list embed)) : nat :=
  length (List.filter is_new_low_notice (concat outs)).

(** The event rows that go with an embed sent at [now]. *)
Definition new_low_row (now : string) (e : embed) : option new_low_event :=
  match e with
  | NewLowNotice app_id name cur current_price _ _ _ =>
      Some (NewLowEvent app_id name "台灣" current_price cur now)
  | FreeGameNotice _ _ _ => None
  end.

Definition free_game_row (now : string) (e : embed) : option free_game_event :=
  match e with
  | FreeGameNotice app_id name _ => Some (FreeGameEvent app_id name now)
  | NewLowNotice _ _ _ _ _ _ _ => None
  end.

(** A sale whose [(name, year)] has a row in [sale_notifications]. *)
Definition marked (d : db) (s : upcoming_sale) : Prop :=
  (us_name s, year (us_date s)) ∈ sale_key <$> sale_notifications d.

(** A region's answer that takes part in the search for the cheapest
    region: the game is not free there and its price is above zero. *)
Definition paid_positive (info : region_price) : Prop :=
  rp_is_free info = false /\ (0 < rp_price info)%Q.

(** * Properties *)

(** ** Comparisons on prices *)

Lemma Qlt_bool_iff (x y : Q) : Qlt_bool x y = true <-> (x < y)%Q.
Proof. unfold Qlt_bool, Qlt. apply Z.ltb_lt. Qed.

Lemma Qlt_bool_false_iff (x y : Q) : Qlt_bool x y = false <-> (y <= x)%Q.
Proof. unfold Qlt_bool, Qle. rewrite Z.ltb_ge. reflexivity. Qed.

(** ** The store functions, one by one *)

Ltac unfold_store :=
  unfold check_historical_low, check_free_game, add_tracked_game, record_price,
    record_new_low_event, record_free_game_event, get_historical_low_price,
    is_sale_notified, mark_sale_notified, with_connection.

Ltac unfold_task :=
  unfold monitor_game, monitor_game_task, task_bind, task_ret, call, send.

(** A store function that does not run to its commit changes nothing. *)
Lemma with_connection_fault {A} (f : fault) (default : A) body (d : db) :
  f <> NoFault -> fst (with_connection f default body d) = d.
Proof. destruct f; [congruence | reflexivity | reflexivity]. Qed.

Lemma check_free_game_paid (app_id : Z) (d : db) :
  check_free_game NoFault app_id false d = (d, Returned false).
Proof.
  unfold_store. destruct (tracked_games d !! app_id) as [row|]; [|reflexivity].
  now rewrite andb_false_r.
Qed.

Lemma check_historical_low_first (app_id : Z) (region : string) (p : Q)
    (now : string) (d : db) :
  historical_low d !! (app_id, region) = None ->
  check_historical_low NoFault app_id region p now d =
    (set_historical_low (<[(app_id, region) := LowRow p now]> (historical_low d)) d,
     Returned (true, None, 0%Q)).
Proof. intros Hnone. unfold_store. now rewrite Hnone. Qed.

Lemma check_historical_low_not_lower (app_id : Z) (region : string) (p : Q)
    (now : string) (d : db) (row : low_row) :
  historical_low d !! (app_id, region) = Some row ->
  (lowest_price row <= p)%Q ->
  check_historical_low NoFault app_id region p now d = (d, Returned (false, None, 0%Q)).
Proof.
  intros Hrow Hle. unfold_store. rewrite Hrow.
  apply Qlt_bool_false_iff in Hle. now rewrite Hle.
Qed.

Lemma check_historical_low_not_positive (app_id : Z) (region : string) (p : Q)
    (now : string) (d : db) (row : low_row) :
  historical_low d !! (app_id, region) = Some row ->
  (p <= 0)%Q ->
  check_historical_low NoFault app_id region p now d = (d, Returned (false, None, 0%Q)).
Proof.
  intros Hrow Hle. unfold_store. rewrite Hrow.
  apply Qlt_bool_false_iff in Hle. now rewrite Hle, andb_false_r.
Qed.

Lemma check_historical_low_lower (app_id : Z) (region : string) (p : Q)
    (now : string) (d : db) (row : low_row) :
  historical_low d !! (app_id, region) = Some row ->
  (p < lowest_price row)%Q -> (0 < p)%Q ->
  check_historical_low NoFault app_id region p now d =
    (set_historical_low (<[(app_id, region) := LowRow p now]> (historical_low d)) d,
     Returned (true, Some (lowest_price row),
               (((lowest_price row - p) / lowest_price row) * 100)%Q)).
Proof.
  intros Hrow Hlt Hpos. unfold_store. rewrite Hrow.
  apply Qlt_bool_iff in Hlt, Hpos. now rewrite Hlt, Hpos.
Qed.

(** The loop body on a paid observation, with the store available: the
    price is logged, then the minimum is checked, and a new low is
    recorded and announced. *)
Lemma monitor_game_paid (app_id : Z) (name : string) (info : game_info)
    (p : price_overview) (now : string) (d : db) :
  default false (gi_is_free info) = false ->
  gi_price_overview info = Some p ->
  monitor_game no_faults app_id name info now d =
    let current_price := (inject_Z (final p) / 100)%Q in
    let discount := default 0 (discount_percent p) in
    let d1 := set_price_history
                (<[(app_id, "tw", now) := PriceRow current_price discount]> (price_history d)) d in
    match check_historical_low NoFault app_id "tw" current_price now d1 with
    | (d2, Returned (true, old_price, price_drop_percent)) =>
        (set_new_low_events
           (new_low_events d2 ++
              [NewLowEvent app_id name "台灣" current_price (currency p) now]) d2,
         [NewLowNotice app_id name (currency p) current_price discount
            (match old_price with
             | Some old => if Qtruthy old then Some (price_drop_percent, old) else None
             | None => None
             end)
            (gi_header_image info)])
    | (d2, _) => (d2, [])
    end.
Proof.
  intros Hfree Hp. unfold_task. rewrite Hfree, Hp. cbn [no_faults on_check_free_game].
  rewrite check_free_game_paid.
  cbn [app no_faults on_record_price on_check_historical_low on_record_new_low_event].
  unfold record_price at 1. unfold with_connection at 1. cbn [negb].
  match goal with
  | |- context [check_historical_low ?f ?a ?r ?q ?t ?s] =>
      destruct (check_historical_low f a r q t s) as [d2 [[[[] old] drop]|]]
  end; reflexivity.
Qed.

(** The loop body on a free observation: only the free-game check runs. *)
Lemma monitor_game_free (app_id : Z) (name : string) (info : game_info)
    (now : string) (d : db) :
  default false (gi_is_free info) = true ->
  monitor_game no_faults app_id name info now d =
    match check_free_game NoFault app_id true d with
    | (d1, Returned true) =>
        (set_free_game_events
           (free_game_events d1 ++ [FreeGameEvent app_id name now]) d1,
         [FreeGameNotice app_id name (gi_header_image info)])
    | (d1, _) => (d1, [])
    end.
Proof.
  intros Hfree. unfold_task. rewrite Hfree. cbn [no_faults on_check_free_game].
  destruct (check_free_game NoFault app_id true d) as [d1 [[]|]]; cbn;
    destruct (gi_price_overview info); reflexivity.
Qed.

(** ** The first observation of a pair *)

(** C1, as stated, does not hold: the first paid observation of a pair
    without a [historical_low] row is recorded in [new_low_events] and
    announced as a new low.  Game 730, first seen at 100.00 TWD, on an
    empty store. *)
Lemma first_observation_is_announced :
  historical_low empty_db !! (730, "tw") = None /\
  (let '(d', out) := monitor_game no_faults 730 "E" (paid 10000 "TWD") "t0" empty_db in
   new_low_events d' = [NewLowEvent 730 "E" "台灣" (10000 # 100) "TWD" "t0"] /\
   out = [NewLowNotice 730 "E" "TWD" (10000 # 100) 0 None None]).
Proof. split; [reflexivity | vm_compute; split; reflexivity]. Qed.

(** C1, amended: for a pair without a [historical_low] row, the first paid
    observation inserts the baseline row with the observed price,
    [check_historical_low] answers [(True, None, 0)], and the loop records
    one [new_low_events] row and sends one new-low embed for it, without
    the two fields that report a previous price. *)
Theorem first_observation_baseline (d : db) (app_id : Z) (name : string)
    (info : game_info) (p : price_overview) (now : string) :
  historical_low d !! (app_id, "tw") = None ->
  default false (gi_is_free info) = false ->
  gi_price_overview info = Some p ->
  let current_price := (inject_Z (final p) / 100)%Q in
  (forall d0, historical_low d0 !! (app_id, "tw") = None ->
     snd (check_historical_low NoFault app_id "tw" current_price now d0)
       = Returned (true, None, 0%Q)) /\
  (let '(d', out) := monitor_game no_faults app_id name info now d in
   historical_low d' !! (app_id, "tw") = Some (LowRow current_price now) /\
   new_low_events d' =
     new_low_events d ++ [NewLowEvent app_id name "台灣" current_price (currency p) now] /\
   out = [NewLowNotice app_id name (currency p) current_price
            (default 0 (discount_percent p)) None (gi_header_image info)]).
Proof.
  intros Hnone Hfree Hp current_price. split.
  - intros d0 H0. now rewrite check_historical_low_first.
  - rewrite (monitor_game_paid _ _ _ p) by assumption. cbv zeta.
    rewrite check_historical_low_first by exact Hnone.
    cbn. rewrite lookup_insert_eq. auto.
Qed.

Lemma first_observation_baseline_witness :
  let current_price := (inject_Z 10000 / 100)%Q in
  (forall d0, historical_low d0 !! (730, "tw") = None ->
     snd (check_historical_low NoFault 730 "tw" current_price "t0" d0)
       = Returned (true, None, 0%Q)) /\
  (let '(d', out) := monitor_game no_faults 730 "E" (paid 10000 "TWD") "t0" empty_db in
   historical_low d' !! (730, "tw") = Some (LowRow current_price "t0") /\
   new_low_events d' =
     new_low_events empty_db ++ [NewLowEvent 730 "E" "台灣" current_price "TWD" "t0"] /\
   out = [NewLowNotice 730 "E" "TWD" current_price 0 None None]).
Proof.
  apply (first_observation_baseline empty_db 730 "E" (paid 10000 "TWD")
           (PriceOverview 10000 "TWD" None) "t0"); reflexivity.
Defined.

(** ** Observations that do not beat the stored minimum *)

(** C6: when the pair has a row and the observed price is not below the
    stored minimum, [check_historical_low] reports no new low and leaves
    the store as it is (for any region); the loop body then leaves the
    whole [historical_low] relation, price and date, and the
    [new_low_events] relation unchanged and sends nothing. *)
Theorem not_lower_price_changes_nothing (d : db) (app_id : Z) (name : string)
    (info : game_info) (p : price_overview) (now : string) (row : low_row) :
  historical_low d !! (app_id, "tw") = Some row ->
  default false (gi_is_free info) = false ->
  gi_price_overview info = Some p ->
  (lowest_price row <= inject_Z (final p) / 100)%Q ->
  (forall (region : string) (price : Q) (t : string) (d0 : db) (row0 : low_row),
     historical_low d0 !! (app_id, region) = Some row0 ->
     (lowest_price row0 <= price)%Q ->
     check_historical_low NoFault app_id region price t d0
       = (d0, Returned (false, None, 0%Q))) /\
  (let '(d', out) := monitor_game no_faults app_id name info now d in
   historical_low d' = historical_low d /\
   historical_low d' !! (app_id, "tw") = Some row /\
   new_low_events d' = new_low_events d /\
   out = []).
Proof.
  intros Hrow Hfree Hp Hle. split.
  - intros region price t d0 row0 Hrow0 Hle0.
    now apply check_historical_low_not_lower with (row := row0).
  - rewrite (monitor_game_paid _ _ _ p) by assumption. cbv zeta.
    erewrite check_historical_low_not_lower; [| exact Hrow | exact Hle].
    cbn. auto.
Qed.

Lemma not_lower_price_changes_nothing_witness :
  let d := set_historical_low {[ (730, "tw") := LowRow 90 "t0" ]} empty_db in
  let '(d', out) := monitor_game no_faults 730 "E" (paid 9500 "TWD") "t1" d in
  historical_low d' = historical_low d /\
  historical_low d' !! (730, "tw") = Some (LowRow 90 "t0") /\
  new_low_events d' = new_low_events d /\
  out = [].
Proof.
  apply (not_lower_price_changes_nothing
           (set_historical_low {[ (730, "tw") := LowRow 90 "t0" ]} empty_db)
           730 "E" (paid 9500 "TWD") (PriceOverview 9500 "TWD" None) "t1"
           (LowRow 90 "t0")).
  - reflexivity.
  - reflexivity.
  - reflexivity.
  - vm_compute. discriminate.
Defined.

(** ** The scenario 100, 90, 95 *)

(** C8: for any game [E] without prior state, region "tw", the prices 100,
    90 and 95 in this order give: a baseline at 100 with no previous
    price; then a new low with previous price 100 and a drop of
    (100 - 90) / 100 * 100 = 10 percent, the row now holding 90; then
    nothing.  The stored minimum ends at 90.  Evaluated on binary64
    floats, the drop is 10.0 as well. *)
Theorem scenario_100_90_95 (E : Z) :
  let '(d1, r1) := check_historical_low NoFault E "tw" 100 "t0" empty_db in
  let '(d2, r2) := check_historical_low NoFault E "tw" 90 "t1" d1 in
  let '(d3, r3) := check_historical_low NoFault E "tw" 95 "t2" d2 in
  (r1 = Returned (true, None, 0%Q) /\ stored_low d1 E "tw" = Some 100%Q) /\
  (exists drop, r2 = Returned (true, Some 100%Q, drop) /\ (drop == 10)%Q /\
     drop = (((100 - 90) / 100) * 100)%Q /\ stored_low d2 E "tw" = Some 90%Q) /\
  (r3 = Returned (false, None, 0%Q) /\ d3 = d2) /\
  stored_low d3 E "tw" = Some 90%Q /\
  price_drop_percent_binary64 100 90 = 10%float.
Proof.
  unfold stored_low.
  rewrite check_historical_low_first by apply lookup_empty.
  erewrite check_historical_low_lower;
    [| cbn; apply lookup_insert_eq | reflexivity | reflexivity].
  erewrite check_historical_low_not_lower;
    [| cbn; apply lookup_insert_eq | cbn; discriminate].
  cbn. rewrite !lookup_insert_eq. cbn.
  repeat split; try reflexivity.
  exists (((100 - 90) / 100) * 100)%Q. repeat split; reflexivity.
Qed.

(** The same three prices seen by the loop, for game 730: the first is
    recorded and announced without a previous price, the second with
    previous price 100.00 and a drop of 10, the third not at all. *)
Lemma scenario_100_90_95_in_the_loop :
  let '(d', outs) :=
    monitor_game_seq 730 "E"
      [(paid 10000 "TWD", "t0"); (paid 9000 "TWD", "t1"); (paid 9500 "TWD", "t2")]
      empty_db in
  outs = [ [NewLowNotice 730 "E" "TWD" (10000 # 100) 0 None None];
           [NewLowNotice 730 "E" "TWD" (9000 # 100) 0
              (Some (1000000000 # 100000000, 10000 # 100)) None];
           [] ] /\
  (1000000000 # 100000000 == 10)%Q /\
  new_low_events d' = [ NewLowEvent 730 "E" "台灣" (10000 # 100) "TWD" "t0";
                        NewLowEvent 730 "E" "台灣" (9000 # 100) "TWD" "t1" ] /\
  historical_low d' !! (730, "tw") = Some (LowRow (9000 # 100) "t1").
Proof. vm_compute. repeat split; reflexivity. Qed.

(** ** The stored minimum over a sequence of observations *)

Lemma lower_or_keep (l p : Q) : (if Qlt_bool p l then p else l) = Qmin l p.
Proof.
  unfold Qlt_bool, Qmin, GenericMinMax.gmin, Qcompare, Z.ltb.
  rewrite (Z.compare_antisym (Qnum p * QDen l) (Qnum l * QDen p)).
  destruct (Qnum p * QDen l ?= Qnum l * QDen p)%Z; reflexivity.
Qed.

Lemma lowest_of_le_start (ps : list Q) (p0 : Q) : (lowest_of p0 ps <= p0)%Q.
Proof.
  unfold lowest_of. revert p0. induction ps as [|p ps IH]; intros p0; cbn.
  - apply Qle_refl.
  - eapply Qle_trans; [apply IH | apply Q.le_min_l].
Qed.

(** [lowest_of p0 ps] is below every element of [p0 :: ps] ... *)
Lemma lowest_of_lower_bound (ps : list Q) (p0 x : Q) :
  In x (p0 :: ps) -> (lowest_of p0 ps <= x)%Q.
Proof.
  revert p0. induction ps as [|p ps IH]; intros p0 [<- | Hin].
  - apply Qle_refl.
  - destruct Hin.
  - apply lowest_of_le_start.
  - unfold lowest_of. cbn. destruct Hin as [<- | Hin].
    + eapply Qle_trans; [apply (lowest_of_le_start ps) | apply Q.le_min_r].
    + apply IH. now right.
Qed.

(** ... and is one of them. *)
Lemma lowest_of_attained (ps : list Q) (p0 : Q) : In (lowest_of p0 ps) (p0 :: ps).
Proof.
  revert p0. induction ps as [|p ps IH]; intros p0; [now left|].
  unfold lowest_of. cbn [fold_left].
  destruct (IH (Qmin p0 p)) as [Heq | Hin].
  - unfold lowest_of in Heq. rewrite <- Heq.
    unfold Qmin, GenericMinMax.gmin. destruct (Qcompare p0 p); cbn; auto.
  - right. now right.
Qed.

(** One turn of the loop, seen from the minimum of the pair. *)
Lemma monitor_game_stored_low (d : db) (app_id : Z) (name : string)
    (info : game_info) (now : string) :
  stored_low (fst (monitor_game no_faults app_id name info now d)) app_id "tw" =
    match observed_price info with
    | None => stored_low d app_id "tw"
    | Some p =>
        Some (match stored_low d app_id "tw" with
              | None => p
              | Some l => if Qlt_bool 0 p then Qmin l p else l
              end)
    end.
Proof.
  unfold observed_price.
  destruct (default false (gi_is_free info)) eqn:Hfree.
  - rewrite monitor_game_free by assumption. unfold_store.
    destruct (tracked_games d !! app_id) as [row|]; [|reflexivity].
    destruct (tg_is_free row); reflexivity.
  - destruct (gi_price_overview info) as [p|] eqn:Hp.
    + rewrite (monitor_game_paid _ _ _ p) by assumption. cbv zeta. cbn [fmap option_fmap option_map].
      unfold_store. unfold stored_low. cbn [historical_low set_price_history].
      destruct (historical_low d !! (app_id, "tw")) as [row|] eqn:Hrow.
      * cbn [fmap option_fmap option_map]. rewrite <- lower_or_keep.
        destruct (Qlt_bool (inject_Z (final p) / 100) (lowest_price row));
          destruct (Qlt_bool 0 (inject_Z (final p) / 100)); cbn;
          rewrite ?lookup_insert_eq, ?Hrow; reflexivity.
      * cbn. now rewrite lookup_insert_eq.
    + unfold_task. rewrite Hfree, Hp. cbn [no_faults on_check_free_game].
      rewrite check_free_game_paid. reflexivity.
Qed.

Lemma monitor_game_seq_cons (app_id : Z) (name : string) (o : game_info * string)
    (obs : list (game_info * string)) (d : db) :
  fst (monitor_game_seq app_id name (o :: obs) d) =
  fst (monitor_game_seq app_id name obs
         (fst (monitor_game no_faults app_id name (fst o) (snd o) d))).
Proof.
  destruct o as [info now]. cbn.
  destruct (monitor_game no_faults app_id name info now d) as [d1 out]. cbn [fst].
  destruct (monitor_game_seq app_id name obs d1) as [d2 outs]. reflexivity.
Qed.

(** Once the pair has a row, the stored minimum after a run is the
    minimum of the value it had and the positive prices of the run. *)
Lemma stored_low_after_run (app_id : Z) (name : string)
    (obs : list (game_info * string)) (d : db) (l : Q) :
  stored_low d app_id "tw" = Some l ->
  stored_low (fst (monitor_game_seq app_id name obs d)) app_id "tw" =
    Some (lowest_of l (positive_prices (prices_of obs))).
Proof.
  revert d l. induction obs as [|o obs IH]; intros d l Hl; [exact Hl|].
  rewrite monitor_game_seq_cons.
  pose proof (monitor_game_stored_low d app_id name (fst o) (snd o)) as Hstep.
  rewrite Hl in Hstep. unfold prices_of. cbn [omap list_omap].
  destruct (observed_price (fst o)) as [p|].
  - cbn [positive_prices List.filter]. fold (prices_of obs).
    destruct (Qlt_bool 0 p); apply IH in Hstep; exact Hstep.
  - now apply IH.
Qed.

Lemma stored_low_from_no_row (app_id : Z) (name : string)
    (obs : list (game_info * string)) (d : db) :
  stored_low d app_id "tw" = None ->
  stored_low (fst (monitor_game_seq app_id name obs d)) app_id "tw" =
    match prices_of obs with
    | [] => None
    | p0 :: ps => Some (lowest_of p0 (positive_prices ps))
    end.
Proof.
  revert d. induction obs as [|o obs IH]; intros d Hnone; [exact Hnone|].
  rewrite monitor_game_seq_cons.
  pose proof (monitor_game_stored_low d app_id name (fst o) (snd o)) as Hstep.
  rewrite Hnone in Hstep. unfold prices_of. cbn [omap list_omap].
  destruct (observed_price (fst o)) as [p|].
  - fold (prices_of obs). apply stored_low_after_run. exact Hstep.
  - apply IH. exact Hstep.
Qed.

(** One call of [check_historical_low], seen from the minimum of its pair. *)
Lemma check_historical_low_stored_low (app_id : Z) (region : string) (p : Q)
    (now : string) (d : db) :
  stored_low (fst (check_historical_low NoFault app_id region p now d)) app_id region =
    Some (match stored_low d app_id region with
          | None => p
          | Some l => if Qlt_bool 0 p then Qmin l p else l
          end).
Proof.
  unfold_store. unfold stored_low.
  destruct (historical_low d !! (app_id, region)) as [row|] eqn:Hrow;
    cbn [fmap option_fmap option_map].
  - rewrite <- lower_or_keep.
    destruct (Qlt_bool p (lowest_price row)); destruct (Qlt_bool 0 p); cbn;
      rewrite ?lookup_insert_eq, ?Hrow; reflexivity.
  - cbn. now rewrite lookup_insert_eq.
Qed.

Lemma check_historical_low_seq_after (app_id : Z) (region : string)
    (calls : list (Q * string)) (d : db) (l : Q) :
  stored_low d app_id region = Some l ->
  stored_low (check_historical_low_seq app_id region calls d) app_id region =
    Some (lowest_of l (positive_prices (map fst calls))).
Proof.
  revert d l. induction calls as [|[p now] calls IH]; intros d l Hl; [exact Hl|].
  cbn [check_historical_low_seq map fst positive_prices List.filter].
  pose proof (check_historical_low_stored_low app_id region p now d) as Hstep.
  rewrite Hl in Hstep. destruct (Qlt_bool 0 p); apply IH in Hstep; exact Hstep.
Qed.

Lemma check_historical_low_seq_from_no_row (app_id : Z) (region : string)
    (calls : list (Q * string)) (d : db) :
  stored_low d app_id region = None ->
  stored_low (check_historical_low_seq app_id region calls d) app_id region =
    match map fst calls with
    | [] => None
    | p0 :: ps => Some (lowest_of p0 (positive_prices ps))
    end.
Proof.
  destruct calls as [|[p now] calls]; intros Hnone; [exact Hnone|].
  cbn [check_historical_low_seq map fst].
  apply check_historical_low_seq_after.
  rewrite check_historical_low_stored_low. now rewrite Hnone.
Qed.

Lemma positive_prices_all (ps : list Q) :
  Forall (fun p => (0 < p)%Q) ps -> positive_prices ps = ps.
Proof.
  induction 1 as [|p ps Hp _ IH]; [reflexivity|].
  cbn. apply Qlt_bool_iff in Hp. rewrite Hp. now f_equal.
Qed.

(** C2, as stated, does not hold: a paid observation priced 0 after the
    baseline is observed and is the minimum of the observed prices, and
    the stored minimum stays at the baseline. *)
Lemma zero_price_is_not_stored :
  let obs := [(paid 10000 "TWD", "t0"); (paid 0 "TWD", "t1")] in
  let d' := fst (monitor_game_seq 730 "E" obs empty_db) in
  historical_low empty_db !! (730, "tw") = None /\
  prices_of obs = [10000 # 100; 0 # 100] /\
  stored_low d' 730 "tw" = Some (10000 # 100) /\
  lowest_of (10000 # 100) [0 # 100] = 0 # 100 /\
  ~ (10000 # 100 == 0 # 100)%Q.
Proof.
  cbv zeta. split; [reflexivity|]. split; [reflexivity|].
  split; [vm_compute; reflexivity|]. split; [reflexivity|]. discriminate.
Qed.

(** C2, amended: for a pair that starts without a row, after any sequence
    of observations the row exists exactly when a paid price was
    observed, and the stored minimum is then the minimum of the first
    observed price and the later observed prices that are above zero (so
    it is the minimum of all observed prices when the later ones are all
    above zero).  From any state in which the row exists, further
    observations keep the row and never raise the stored minimum.  The
    loop only ever checks region "tw"; the same holds of successive calls
    of [check_historical_low] for any region. *)
Theorem stored_low_is_running_minimum (app_id : Z) (name : string)
    (obs : list (game_info * string)) (d : db) :
  historical_low d !! (app_id, "tw") = None ->
  let d' := fst (monitor_game_seq app_id name obs d) in
  match prices_of obs with
  | [] => stored_low d' app_id "tw" = None
  | p0 :: ps =>
      stored_low d' app_id "tw" = Some (lowest_of p0 (positive_prices ps)) /\
      (Forall (fun p => (0 < p)%Q) ps ->
       stored_low d' app_id "tw" = Some (lowest_of p0 ps))
  end /\
  (forall (d0 : db) (more : list (game_info * string)) (l : Q),
     stored_low d0 app_id "tw" = Some l ->
     exists l', stored_low (fst (monitor_game_seq app_id name more d0)) app_id "tw" = Some l'
                /\ (l' <= l)%Q) /\
  (forall (region : string) (calls : list (Q * string)) (d0 : db),
     match stored_low d0 app_id region, map fst calls with
     | None, [] => stored_low (check_historical_low_seq app_id region calls d0) app_id region = None
     | None, p0 :: ps =>
         stored_low (check_historical_low_seq app_id region calls d0) app_id region
           = Some (lowest_of p0 (positive_prices ps))
     | Some l, _ =>
         exists l', stored_low (check_historical_low_seq app_id region calls d0) app_id region
                      = Some l' /\ (l' <= l)%Q
     end).
Proof.
  intros Hnone d'. split; [|split].
  - assert (Hrun := stored_low_from_no_row app_id name obs d).
    unfold stored_low at 1 in Hrun. rewrite Hnone in Hrun. specialize (Hrun eq_refl).
    fold d' in Hrun. destruct (prices_of obs) as [|p0 ps]; [exact Hrun|].
    split; [exact Hrun|]. intros Hpos. now rewrite <- (positive_prices_all ps Hpos) at 1.
  - intros d0 more l Hl. exists (lowest_of l (positive_prices (prices_of more))). split.
    + apply stored_low_after_run. exact Hl.
    + apply lowest_of_le_start.
  - intros region calls d0. destruct (stored_low d0 app_id region) as [l|] eqn:Hl.
    + exists (lowest_of l (positive_prices (map fst calls))). split.
      * now apply check_historical_low_seq_after.
      * apply lowest_of_le_start.
    + pose proof (check_historical_low_seq_from_no_row app_id region calls d0 Hl) as Hrun.
      destruct (map fst calls); exact Hrun.
Qed.

Lemma stored_low_is_running_minimum_witness :
  let obs := [(paid 10000 "TWD", "t0"); (free, "t1"); (paid 9000 "TWD", "t2");
              (paid 0 "TWD", "t3"); (paid 9500 "TWD", "t4")] in
  let d' := fst (monitor_game_seq 730 "E" obs empty_db) in
  prices_of obs = [10000 # 100; 9000 # 100; 0 # 100; 9500 # 100] /\
  stored_low d' 730 "tw" = Some (9000 # 100).
Proof.
  pose proof (stored_low_is_running_minimum 730 "E"
           [(paid 10000 "TWD", "t0"); (free, "t1"); (paid 9000 "TWD", "t2");
            (paid 0 "TWD", "t3"); (paid 9500 "TWD", "t4")] empty_db eq_refl) as [H _].
  cbv zeta. split; [reflexivity|].
  destruct H as [H _]. rewrite H. reflexivity.
Defined.

(** ** Free transitions *)

(** C3: what the code does where the claim expects the detector to be
    re-armed.  [check_free_game] writes [is_free] only inside the branch
    [not was_free and is_currently_free], so a paid observation never
    changes the store; a game stored as free stays stored as free after a
    paid observation; and over the observations
    [false, true, true, false, true] of a game tracked as paid, the
    free-game embed is sent at index 1 only, with one [free_game_events]
    row, and the stored status is still free at the end. *)
Theorem paid_observation_does_not_rearm :
  (forall (app_id : Z) (d : db),
     check_free_game NoFault app_id false d = (d, Returned false)) /\
  (let d0 := fst (add_tracked_game NoFault 730 "E" true None "t" empty_db) in
   let d1 := fst (monitor_game no_faults 730 "E" (paid 10000 "TWD") "t0" d0) in
   tg_is_free <$> tracked_games d0 !! 730 = Some true /\
   tg_is_free <$> tracked_games d1 !! 730 = Some true) /\
  (let d0 := fst (add_tracked_game NoFault 730 "E" false None "t" empty_db) in
   let '(d', outs) :=
     monitor_game_seq 730 "E"
       [(paid 10000 "TWD", "t0"); (free, "t1"); (free, "t2");
        (paid 10000 "TWD", "t3"); (free, "t4")] d0 in
   map (existsb is_free_game_notice) outs = [false; true; false; false; false] /\
   free_game_events d' = [FreeGameEvent 730 "E" "t1"] /\
   tg_is_free <$> tracked_games d' !! 730 = Some true).
Proof.
  split; [exact check_free_game_paid|].
  split; vm_compute; repeat split; reflexivity.
Qed.

(** C7, as stated, does not hold: a free observation of a game without a
    [tracked_games] row sends nothing and stores nothing. *)
Lemma unknown_game_free_is_silent :
  tracked_games empty_db !! 730 = None /\
  check_free_game NoFault 730 true empty_db = (empty_db, Returned false) /\
  monitor_game no_faults 730 "E" free "t0" empty_db = (empty_db, []).
Proof. repeat split; reflexivity. Qed.

(** C7, amended: on a free observation, a game without a stored row, like
    a game stored as free, gets no embed and no change of the store; the
    free-game embed is sent, the [free_game_events] row is added and the
    stored status becomes free exactly when the game has a row whose
    stored status is paid. *)
Theorem free_transition_needs_stored_row (d : db) (app_id : Z) (name : string)
    (info : game_info) (now : string) :
  default false (gi_is_free info) = true ->
  let '(d', out) := monitor_game no_faults app_id name info now d in
  match tg_is_free <$> tracked_games d !! app_id with
  | Some false =>
      out = [FreeGameNotice app_id name (gi_header_image info)] /\
      tg_is_free <$> tracked_games d' !! app_id = Some true /\
      free_game_events d' = free_game_events d ++ [FreeGameEvent app_id name now]
  | Some true | None => d' = d /\ out = []
  end.
Proof.
  intros Hfree. rewrite monitor_game_free by assumption. unfold_store.
  destruct (tracked_games d !! app_id) as [row|]; cbn; [|auto].
  destruct (tg_is_free row); cbn; [auto|].
  rewrite lookup_insert_eq. auto.
Qed.

Lemma free_transition_needs_stored_row_witness :
  let d := fst (add_tracked_game NoFault 730 "E" false None "t" empty_db) in
  let '(d', out) := monitor_game no_faults 730 "E" free "t0" d in
  match tg_is_free <$> tracked_games d !! 730 with
  | Some false =>
      out = [FreeGameNotice 730 "E" (gi_header_image free)] /\
      tg_is_free <$> tracked_games d' !! 730 = Some true /\
      free_game_events d' = free_game_events d ++ [FreeGameEvent 730 "E" "t0"]
  | Some true | None => d' = d /\ out = []
  end.
Proof.
  apply (free_transition_needs_stored_row
           (fst (add_tracked_game NoFault 730 "E" false None "t" empty_db))
           730 "E" free "t0").
  reflexivity.
Defined.

(** ** Upcoming sales *)

(** What [check_upcoming_sales] returns: the calendar entries whose
    [days_until] lies between 0 and 7, in calendar order. *)
Lemma upcoming_sales_of_spec (calendar : list (string * sale_info)) (now : datetime)
    (s : upcoming_sale) :
  In s (upcoming_sales_of calendar now) <->
  exists sale_name info,
    In (sale_name, info) calendar /\
    0 <= days_until now info <= 7 /\
    s = UpcomingSale sale_name (sale_date now info) (days_until now info)
          (si_emoji info) (si_duration info).
Proof.
  induction calendar as [|[n i] rest IH]; cbn.
  - split; [intros [] | intros (? & ? & [] & _)].
  - destruct ((0 <=? days_until now i) && (days_until now i <=? 7)) eqn:Hdue.
    + apply andb_true_iff in Hdue as [H0 H7].
      apply Z.leb_le in H0. apply Z.leb_le in H7. cbn. rewrite IH. split.
      * intros [<- | (n' & i' & Hin & Hrange & ->)].
        -- exists n, i. auto.
        -- exists n', i'. auto.
      * intros (n' & i' & [Heq | Hin] & Hrange & ->).
        -- inversion Heq; subst. now left.
        -- right. exists n', i'. auto.
    + rewrite IH. split.
      * intros (n' & i' & Hin & Hrange & ->). exists n', i'. auto.
      * intros (n' & i' & [Heq | Hin] & Hrange & ->).
        -- inversion Heq; subst. apply andb_false_iff in Hdue as [H | H];
             [apply Z.leb_gt in H | apply Z.leb_gt in H]; lia.
        -- exists n', i'. auto.
Qed.

Lemma days_before_year_succ (y : Z) :
  364 <= days_before_year (y + 1) - days_before_year y.
Proof.
  unfold days_before_year. cbv zeta. replace (y + 1 - 1) with (y - 1 + 1) by lia.
  pose proof (Z.div_le_mono (y - 1) (y - 1 + 1) 4 ltac:(lia) ltac:(lia)).
  pose proof (Z.div_le_mono (y - 1) (y - 1 + 1) 400 ltac:(lia) ltac:(lia)).
  assert ((y - 1 + 1) / 100 <= (y - 1) / 100 + 1).
  { replace (y - 1 + 1) with (y - 1 + 1 * 1) by lia.
    etransitivity; [apply Z.div_le_mono with (b := y - 1 + 1 * 100); lia|].
    rewrite Z.div_add by lia. lia. }
  lia.
Qed.

Lemma days_before_month_succ (y m : Z) :
  -1 <= days_before_month (y + 1) m - days_before_month y m.
Proof.
  unfold days_before_month.
  destruct ((2 <? m) && is_leap (y + 1)), ((2 <? m) && is_leap y); lia.
Qed.

(** On the day a sale starts, at any time after midnight, the start of
    this year's sale is already behind [now]; the date measured against
    is next year's, at least 362 days away. *)
Lemma start_day_after_midnight (now : datetime) (info : sale_info) :
  si_month info = month now ->
  si_start_day info = day now ->
  0 < time_of_day now < microseconds_per_day ->
  sale_date now info = midnight (year now + 1) (month now) (day now) /\
  362 <= days_until now info.
Proof.
  intros Hm Hd Htime.
  assert (Hdate : sale_date now info = midnight (year now + 1) (month now) (day now)).
  { unfold sale_date. cbv zeta. rewrite Hm, Hd.
    replace (datetime_ltb _ now) with true; [reflexivity|].
    symmetry. apply Z.ltb_lt. unfold to_microseconds, toordinal, time_of_day, midnight in *.
    cbn. lia. }
  split; [exact Hdate|].
  unfold days_until, timedelta_days. rewrite Hdate.
  apply Z.div_le_lower_bound; [reflexivity|].
  unfold to_microseconds, toordinal, time_of_day, midnight in *.
  cbn [year month day hour minute second microsecond].
  pose proof (days_before_year_succ (year now)).
  pose proof (days_before_month_succ (year now) (month now)).
  unfold microseconds_per_day in *. lia.
Qed.

Lemma sale_date_month_day (now : datetime) (info : sale_info) :
  month (sale_date now info) = si_month info /\ day (sale_date now info) = si_start_day info.
Proof.
  unfold sale_date. cbv zeta.
  generalize (datetime_ltb (midnight (year now) (si_month info) (si_start_day info)) now).
  intros []; split; reflexivity.
Qed.

(** X14: at any time after midnight, no sale returned for a calendar
    ([check_upcoming_sales] is [upcoming_sales_of STEAM_SALES_CALENDAR])
    starts on the current day of the current month. *)
Lemma start_day_never_due (calendar : list (string * sale_info)) (now : datetime)
    (s : upcoming_sale) :
  0 < time_of_day now < microseconds_per_day ->
  In s (upcoming_sales_of calendar now) ->
  ~ (month (us_date s) = month now /\ day (us_date s) = day now).
Proof.
  intros Htime Hin [Hm Hd].
  apply upcoming_sales_of_spec in Hin as (sale_name & info & _ & Hrange & ->).
  cbn [us_date] in Hm, Hd.
  destruct (sale_date_month_day now info) as [Hmi Hdi].
  rewrite Hmi in Hm. rewrite Hdi in Hd.
  destruct (start_day_after_midnight now info Hm Hd Htime) as [_ Hfar]. lia.
Qed.

(** C4: what the code does for a sale that starts today.  On 14 March
    2025 at 10:00 the spring sale, which starts on 14 March, is measured
    against 14 March 2026, is 364 days away and is not returned; nothing
    is.  The day before at 10:00 it is returned with [days_until] 0, and
    the announcement built from it reads "starts today". *)
Theorem sale_starting_today_is_not_due :
  let spring := SaleInfo 3 14 14 "🌸" in
  In ("春季特賣", spring) STEAM_SALES_CALENDAR /\
  (let now := DateTime 2025 3 14 10 0 0 0 in
   sale_date now spring = midnight 2026 3 14 /\
   days_until now spring = 364 /\
   check_upcoming_sales now = []) /\
  (let eve := DateTime 2025 3 13 10 0 0 0 in
   map (fun s => (us_name s, us_date s, us_days_until s, announcement_time_text s))
       (check_upcoming_sales eve)
   = [("春季特賣", midnight 2025 3 14, 0, StartsToday)]).
Proof.
  cbv zeta. split; [now left|]. split; [|vm_compute; reflexivity].
  repeat split; vm_compute; reflexivity.
Qed.

(** ** Marking a sale as announced *)

Lemma same_sale_iff (sale_name : string) (y : Z) (r : sale_notification) :
  same_sale sale_name y r = true <-> sale_key r = (sale_name, y).
Proof.
  unfold same_sale, sale_key. rewrite andb_true_iff, bool_decide_eq_true, Z.eqb_eq.
  split; [intros [-> ->]; reflexivity | intros [= -> ->]; auto].
Qed.

Lemma existsb_same_sale (sale_name : string) (y : Z) (rows : list sale_notification) :
  existsb (same_sale sale_name y) rows = true <-> In (sale_name, y) (map sale_key rows).
Proof.
  rewrite existsb_exists, in_map_iff. split.
  - intros (r & Hin & Hsame). exists r. now apply same_sale_iff in Hsame.
  - intros (r & Hkey & Hin). exists r. now rewrite same_sale_iff.
Qed.

(** The write keeps at most one row per [(sale_name, year)]. *)
Lemma mark_sale_notified_unique (f : fault) (sale_name : string) (y : Z)
    (now : string) (d : db) :
  List.NoDup (map sale_key (sale_notifications d)) ->
  List.NoDup (map sale_key (sale_notifications (fst (mark_sale_notified f sale_name y now d)))).
Proof.
  intros Hnodup. destruct f; [|exact Hnodup|exact Hnodup]. unfold_store.
  destruct (existsb (same_sale sale_name y) (sale_notifications d)) eqn:Hex; [exact Hnodup|].
  cbn. rewrite map_app. cbn. apply NoDup_ListNoDup, NoDup_app.
  split; [now apply NoDup_ListNoDup|]. split.
  - intros k Hk Hin. apply list_elem_of_singleton in Hin. subst k.
    apply list_elem_of_In in Hk. apply (proj2 (existsb_same_sale _ _ _)) in Hk.
    cbn in Hk. congruence.
  - apply NoDup_singleton.
Qed.

(** The loop body never writes [sale_notifications]. *)
Lemma monitor_game_sale_notifications (flt : faults) (app_id : Z) (name : string)
    (info : game_info) (now : string) (d : db) :
  sale_notifications (fst (monitor_game flt app_id name info now d)) = sale_notifications d.
Proof.
  destruct flt as [f1 f2 f3 f4 f5]. destruct info as [is_free overview image].
  unfold_task. unfold_store. cbn.
  destruct f1; cbn;
    try (destruct (tracked_games d !! app_id) as [row|]; cbn;
         [destruct (tg_is_free row); cbn|]);
    destruct is_free as [[]|]; cbn; destruct f2; cbn;
    destruct overview as [p|]; cbn; try reflexivity;
    destruct f3; cbn; try reflexivity;
    destruct f4; cbn; try reflexivity;
    (destruct (historical_low d !! (app_id, "tw")) as [low|]; cbn;
     [destruct (Qlt_bool _ (lowest_price low) && Qlt_bool 0 _); cbn|]);
    destruct f5; reflexivity.
Qed.

(** No store the program can be in has two rows for one
    [(sale_name, year)]. *)
Lemma reachable_unique (d : db) :
  reachable d -> List.NoDup (map sale_key (sale_notifications d)).
Proof.
  induction 1 as [| flt app_id name info now d _ IH | f app_id name is_free image now d _ IH
                  | f app_id d _ IH | f g c e now d _ IH | f sale_name y now d _ IH].
  - constructor.
  - now rewrite monitor_game_sale_notifications.
  - unfold_store. now destruct f.
  - unfold untrack_game. destruct f; destruct (tracked_games d !! app_id); exact IH.
  - unfold set_notification_channel, with_connection. now destruct f.
  - now apply mark_sale_notified_unique.
Qed.

(** C5: marking the same [(sale_name, year)] a second time, at whatever
    time, returns normally and leaves the store exactly as the first call
    left it; [is_sale_notified] answers [True] after the first call and
    after the second; and in no store the program can be in do two rows
    share [(sale_name, year)]. *)
Theorem mark_sale_notified_idempotent (sale_name : string) (y : Z)
    (t1 t2 : string) (d : db) :
  let '(d1, r1) := mark_sale_notified NoFault sale_name y t1 d in
  let '(d2, r2) := mark_sale_notified NoFault sale_name y t2 d1 in
  (r1 = Returned tt /\ r2 = Returned tt) /\
  d2 = d1 /\
  is_sale_notified NoFault sale_name y d1 = (d1, Returned true) /\
  is_sale_notified NoFault sale_name y d2 = (d2, Returned true) /\
  (forall d0 : db, reachable d0 -> List.NoDup (map sale_key (sale_notifications d0))).
Proof.
  assert (Hmarked : existsb (same_sale sale_name y)
            (sale_notifications (fst (mark_sale_notified NoFault sale_name y t1 d))) = true).
  { unfold_store.
    destruct (existsb (same_sale sale_name y) (sale_notifications d)) eqn:Hex; [exact Hex|].
    cbn. rewrite existsb_app. cbn.
    replace (same_sale sale_name y (SaleNotification sale_name t1 y)) with true.
    - now rewrite orb_true_r.
    - symmetry. now apply same_sale_iff. }
  destruct (mark_sale_notified NoFault sale_name y t1 d) as [d1 r1] eqn:H1.
  assert (r1 = Returned tt) as ->.
  { change r1 with (snd (d1, r1)). rewrite <- H1. unfold_store.
    destruct (existsb _ (sale_notifications d)); reflexivity. }
  cbn [fst] in Hmarked. unfold_store. rewrite Hmarked. cbv beta iota zeta.
  rewrite Hmarked.
  split; [split; reflexivity|]. do 3 (split; [reflexivity|]).
  exact reachable_unique.
Qed.

Lemma mark_sale_notified_idempotent_witness :
  let '(d1, r1) := mark_sale_notified NoFault "春季特賣" 2025 "t1" empty_db in
  let '(d2, r2) := mark_sale_notified NoFault "春季特賣" 2025 "t2" d1 in
  (r1 = Returned tt /\ r2 = Returned tt) /\
  d2 = d1 /\
  is_sale_notified NoFault "春季特賣" 2025 d1 = (d1, Returned true) /\
  is_sale_notified NoFault "春季特賣" 2025 d2 = (d2, Returned true) /\
  (forall d0 : db, reachable d0 -> List.NoDup (map sale_key (sale_notifications d0))).
Proof. exact (mark_sale_notified_idempotent "春季特賣" 2025 "t1" "t2" empty_db). Defined.

(** ** The store failing while an observation is processed *)

(** C9, as stated, does not hold: the stored minimum is 100 and the game
    is seen at 90.00; the store is available up to and including
    [check_historical_low] and not for [record_new_low_event].  The new
    minimum is committed and no [new_low_events] row exists; when the
    failing statement is an [execute] the embed is still sent, when it is
    the [connect] nothing is sent. *)
Lemma new_low_committed_without_event :
  let d := set_historical_low {[ (730, "tw") := LowRow 100 "t0" ]} empty_db in
  stored_low d 730 "tw" = Some 100%Q /\
  (let '(d', out) := monitor_game (Faults NoFault NoFault NoFault NoFault ExecFault)
                       730 "E" (paid 9000 "TWD") "t1" d in
   stored_low d' 730 "tw" = Some (9000 # 100) /\
   new_low_events d' = [] /\
   out = [NewLowNotice 730 "E" "TWD" (9000 # 100) 0
            (Some (100000 # 10000, 100%Q)) None]) /\
  (let '(d', out) := monitor_game (Faults NoFault NoFault NoFault NoFault ConnectFault)
                       730 "E" (paid 9000 "TWD") "t1" d in
   stored_low d' 730 "tw" = Some (9000 # 100) /\
   new_low_events d' = [] /\
   out = []).
Proof. cbv zeta. split; [reflexivity|]. split; vm_compute; repeat split; reflexivity. Qed.

(** A paid observation with the store unavailable at the minimum check:
    the price row written just before stays, and nothing else happens. *)
Lemma monitor_game_low_check_fails (f f2 f5 : fault) (d : db) (app_id : Z)
    (name : string) (info : game_info) (po : price_overview) (now : string) :
  f <> NoFault ->
  default false (gi_is_free info) = false ->
  gi_price_overview info = Some po ->
  monitor_game (Faults NoFault f2 NoFault f f5) app_id name info now d
  = (fst (record_price NoFault app_id "tw" (inject_Z (final po) / 100)%Q
            (default 0 (discount_percent po)) now d), []).
Proof.
  intros Hf Hfree Hp. unfold_task.
  cbn [on_check_free_game on_record_free_game_event on_record_price
       on_check_historical_low on_record_new_low_event].
  rewrite Hfree, Hp, check_free_game_paid. cbn [negb].
  unfold_store. destruct f; [congruence | reflexivity | reflexivity].
Qed.

(** A paid observation with the store unavailable at the write of the
    event row: the price row and the outcome of the minimum check stay. *)
Lemma monitor_game_event_write_fails (f f2 : fault) (d : db) (app_id : Z)
    (name : string) (info : game_info) (po : price_overview) (now : string) :
  f <> NoFault ->
  default false (gi_is_free info) = false ->
  gi_price_overview info = Some po ->
  fst (monitor_game (Faults NoFault f2 NoFault NoFault f) app_id name info now d)
  = fst (check_historical_low NoFault app_id "tw" (inject_Z (final po) / 100)%Q now
           (fst (record_price NoFault app_id "tw" (inject_Z (final po) / 100)%Q
                   (default 0 (discount_percent po)) now d))).
Proof.
  intros Hf Hfree Hp. unfold_task.
  cbn [on_check_free_game on_record_free_game_event on_record_price
       on_check_historical_low on_record_new_low_event].
  rewrite Hfree, Hp, check_free_game_paid. cbn [negb].
  unfold record_price at 1 2. unfold with_connection at 1 2. cbn [fst].
  match goal with
  | |- context [check_historical_low NoFault ?a ?r ?q ?t ?s] =>
      destruct (check_historical_low NoFault a r q t s) as [d2 res] eqn:Hlow
  end.
  assert (exists b old drop, res = Returned (b, old, drop)) as (b & old & drop & ->).
  { revert Hlow. unfold check_historical_low, with_connection.
    destruct (historical_low _ !! _) as [row|]; [destruct (_ && _)|]; intros [= _ <-]; eauto. }
  cbn [fst]. destruct b; [|reflexivity].
  unfold record_new_low_event, with_connection.
  destruct f; [congruence | reflexivity | reflexivity].
Qed.

(** A free observation of a game stored as paid, with the store
    unavailable at the write of the event row: the flipped status
    stays. *)
Lemma monitor_game_free_event_write_fails (f f3 f4 f5 : fault) (d : db) (app_id : Z)
    (name : string) (info : game_info) (row : tracked_game) (now : string) :
  f <> NoFault ->
  gi_is_free info = Some true ->
  tracked_games d !! app_id = Some row ->
  tg_is_free row = false ->
  fst (monitor_game (Faults NoFault f f3 f4 f5) app_id name info now d)
  = fst (check_free_game NoFault app_id true d).
Proof.
  intros Hf Hfree Hrow Hpaid. unfold_task.
  cbn [on_check_free_game on_record_free_game_event on_record_price
       on_check_historical_low on_record_new_low_event].
  rewrite Hfree. cbn [default from_option negb].
  unfold check_free_game, with_connection. rewrite Hrow, Hpaid. cbn [negb andb fst].
  unfold record_free_game_event, with_connection.
  destruct f; [congruence | |]; destruct (gi_price_overview info); reflexivity.
Qed.

(** C9, amended: the store calls of one observation are separate
    transactions.  A call that meets an unavailable store leaves the
    store as it was before that call, and what the earlier calls of the
    same observation committed stays:
    - when the minimum check fails, the [historical_low] relation is
      unchanged and neither a [new_low_events] row nor a new-low embed is
      produced, and the price row written just before is in the store,
      which differs from the one before the observation by that row
      only;
    - when the write of the event row fails, the store is the one the
      price write and the minimum check left: the price row is there,
      a new minimum is stored, and [new_low_events] is as before;
    - when the write of the free-game event row fails, the flipped
      [is_free] status of the game is in the store and
      [free_game_events] is as before. *)
Theorem store_failure_keeps_earlier_writes (f : fault) (flt : faults) (d : db)
    (app_id : Z) (name : string) (info : game_info) (now : string) :
  f <> NoFault ->
  on_check_historical_low flt <> NoFault ->
  (forall (region cur : string) (price : Q) (discount : Z) (is_free : bool),
     fst (check_historical_low f app_id region price now d) = d /\
     snd (check_historical_low f app_id region price now d) <> Returned (true, None, 0%Q) /\
     fst (record_new_low_event f app_id name region price cur now d) = d /\
     fst (record_price f app_id region price discount now d) = d /\
     fst (check_free_game f app_id is_free d) = d /\
     fst (record_free_game_event f app_id name now d) = d) /\
  (let '(d', out) := monitor_game flt app_id name info now d in
   historical_low d' = historical_low d /\
   new_low_events d' = new_low_events d /\
   existsb is_new_low_notice out = false) /\
  (forall po : price_overview,
     default false (gi_is_free info) = false ->
     gi_price_overview info = Some po ->
     let p := (inject_Z (final po) / 100)%Q in
     let discount := default 0 (discount_percent po) in
     let d_price :=
       set_price_history (<[(app_id, "tw", now) := PriceRow p discount]> (price_history d)) d in
     (forall f2 f5 : fault,
        monitor_game (Faults NoFault f2 NoFault f f5) app_id name info now d = (d_price, [])) /\
     (forall f2 : fault,
        let d' := fst (monitor_game (Faults NoFault f2 NoFault NoFault f)
                         app_id name info now d) in
        price_history d' = price_history d_price /\
        historical_low d' = historical_low (fst (check_historical_low NoFault app_id "tw" p now d)) /\
        new_low_events d' = new_low_events d /\
        (snd (check_historical_low NoFault app_id "tw" p now d) <> Returned (false, None, 0%Q) ->
         stored_low d' app_id "tw" = Some p))) /\
  (forall (row : tracked_game) (f3 f4 f5 : fault),
     gi_is_free info = Some true ->
     tracked_games d !! app_id = Some row ->
     tg_is_free row = false ->
     let d' := fst (monitor_game (Faults NoFault f f3 f4 f5) app_id name info now d) in
     tracked_games d'
     = <[app_id := TrackedGame (tg_name row) (tg_last_check row) true (tg_image_url row)]>
         (tracked_games d) /\
     free_game_events d' = free_game_events d).
Proof.
  intros Hf Hlow. split; [|split; [|split]].
  - intros region cur price discount is_free. unfold_store.
    destruct f; [congruence | |]; cbn; repeat split; discriminate.
  - destruct flt as [f1 f2 f3 f4 f5]. cbn in Hlow.
    destruct info as [is_free overview image].
    unfold_task. unfold_store. cbn.
    destruct f4; [congruence | |];
      destruct f1; cbn;
      try (destruct (tracked_games d !! app_id) as [row|]; cbn;
           [destruct (tg_is_free row); cbn|]);
      destruct is_free as [[]|]; cbn; destruct f2; cbn;
      destruct overview as [p|]; cbn; destruct f3; cbn; auto.
  - intros po Hfree Hp p discount d_price. split.
    + intros f2 f5. now rewrite (monitor_game_low_check_fails f f2 f5 d app_id name info po now).
    + intros f2 d'. subst d'.
      rewrite (monitor_game_event_write_fails f f2 d app_id name info po now) by assumption.
      fold p discount. unfold record_price, with_connection. cbn [fst]. fold d_price.
      unfold check_historical_low, with_connection, stored_low. subst d_price.
      cbn [historical_low set_price_history].
      destruct (historical_low d !! (app_id, "tw")) as [lrow|] eqn:Hrow.
      * destruct (Qlt_bool p (lowest_price lrow) && Qlt_bool 0 p); cbn.
        -- rewrite lookup_insert_eq. repeat split; reflexivity.
        -- repeat split; try reflexivity. intros H. now contradiction H.
      * cbn. rewrite lookup_insert_eq. repeat split; reflexivity.
  - intros row f3 f4 f5 Hfree Hrow Hpaid d'. subst d'.
    rewrite (monitor_game_free_event_write_fails f f3 f4 f5 d app_id name info row now)
      by assumption.
    unfold check_free_game, with_connection. rewrite Hrow, Hpaid. cbn. split; reflexivity.
Qed.

Lemma store_failure_keeps_earlier_writes_witness :
  let d := set_historical_low {[ (730, "tw") := LowRow 100 "t0" ]} empty_db in
  let info := paid 9000 "TWD" in
  (forall (region cur : string) (price : Q) (discount : Z) (is_free : bool),
     fst (check_historical_low ExecFault 730 region price "t1" d) = d /\
     snd (check_historical_low ExecFault 730 region price "t1" d)
       <> Returned (true, None, 0%Q) /\
     fst (record_new_low_event ExecFault 730 "E" region price cur "t1" d) = d /\
     fst (record_price ExecFault 730 region price discount "t1" d) = d /\
     fst (check_free_game ExecFault 730 is_free d) = d /\
     fst (record_free_game_event ExecFault 730 "E" "t1" d) = d) /\
  (let '(d', out) := monitor_game (Faults NoFault NoFault NoFault ExecFault NoFault)
                       730 "E" info "t1" d in
   historical_low d' = historical_low d /\
   new_low_events d' = new_low_events d /\
   existsb is_new_low_notice out = false) /\
  (forall po : price_overview,
     default false (gi_is_free info) = false ->
     gi_price_overview info = Some po ->
     let p := (inject_Z (final po) / 100)%Q in
     let discount := default 0 (discount_percent po) in
     let d_price :=
       set_price_history (<[(730, "tw", "t1") := PriceRow p discount]> (price_history d)) d in
     (forall f2 f5 : fault,
        monitor_game (Faults NoFault f2 NoFault ExecFault f5) 730 "E" info "t1" d
        = (d_price, [])) /\
     (forall f2 : fault,
        let d' := fst (monitor_game (Faults NoFault f2 NoFault NoFault ExecFault)
                         730 "E" info "t1" d) in
        price_history d' = price_history d_price /\
        historical_low d' = historical_low (fst (check_historical_low NoFault 730 "tw" p "t1" d)) /\
        new_low_events d' = new_low_events d /\
        (snd (check_historical_low NoFault 730 "tw" p "t1" d) <> Returned (false, None, 0%Q) ->
         stored_low d' 730 "tw" = Some p))) /\
  (forall (row : tracked_game) (f3 f4 f5 : fault),
     gi_is_free info = Some true ->
     tracked_games d !! 730 = Some row ->
     tg_is_free row = false ->
     let d' := fst (monitor_game (Faults NoFault ExecFault f3 f4 f5) 730 "E" info "t1" d) in
     tracked_games d'
     = <[730 := TrackedGame (tg_name row) (tg_last_check row) true (tg_image_url row)]>
         (tracked_games d) /\
     free_game_events d' = free_game_events d).
Proof.
  apply (store_failure_keeps_earlier_writes ExecFault
           (Faults NoFault NoFault NoFault ExecFault NoFault)
           (set_historical_low {[ (730, "tw") := LowRow 100 "t0" ]} empty_db)
           730 "E" (paid 9000 "TWD") "t1"); discriminate.
Defined.

(** ** Removing a game from the tracking list *)

(** C10: [untrack_game], whatever the state of the store, changes at
    most the [tracked_games] row of the given id: every other relation,
    [historical_low] and [price_history] among them, and every other
    [tracked_games] row are as before, and with the store available the
    row of the id is gone.  After tracking the same id again the
    [historical_low] relation is still the one from before the removal,
    and the minimum check answers as it would have then. *)
Theorem untrack_keeps_history (f : fault) (app_id : Z) (d : db) :
  let d' := fst (untrack_game f app_id d) in
  (historical_low d' = historical_low d /\
   price_history d' = price_history d /\
   server_settings d' = server_settings d /\
   new_low_events d' = new_low_events d /\
   free_game_events d' = free_game_events d /\
   sale_notifications d' = sale_notifications d) /\
  (forall other : Z, other <> app_id -> tracked_games d' !! other = tracked_games d !! other) /\
  (f = NoFault -> tracked_games d' !! app_id = None) /\
  (forall (name : string) (is_free : bool) (image_url : option string) (t : string),
     let d'' := fst (add_tracked_game NoFault app_id name is_free image_url t d') in
     historical_low d'' = historical_low d /\
     price_history d'' = price_history d /\
     forall (region : string) (price : Q) (now : string),
       snd (get_historical_low_price NoFault app_id region d'')
         = snd (get_historical_low_price NoFault app_id region d) /\
       snd (check_historical_low NoFault app_id region price now d'')
         = snd (check_historical_low NoFault app_id region price now d) /\
       stored_low (fst (check_historical_low NoFault app_id region price now d'')) app_id region
         = stored_low (fst (check_historical_low NoFault app_id region price now d)) app_id region).
Proof.
  cbv zeta.
  assert (Hframe : historical_low (fst (untrack_game f app_id d)) = historical_low d /\
                   price_history (fst (untrack_game f app_id d)) = price_history d).
  { unfold untrack_game. destruct f; destruct (tracked_games d !! app_id); auto. }
  destruct Hframe as [Hlow Hprice].
  split; [|split; [|split]].
  - unfold untrack_game. destruct f; destruct (tracked_games d !! app_id); cbn; auto 7.
  - intros other Hne. unfold untrack_game.
    destruct f; destruct (tracked_games d !! app_id); cbn; try reflexivity.
    now apply lookup_delete_ne.
  - intros ->. unfold untrack_game.
    destruct (tracked_games d !! app_id) eqn:Hrow; cbn; [apply lookup_delete_eq | exact Hrow].
  - intros name is_free image_url t. unfold add_tracked_game, with_connection.
    cbn [fst historical_low price_history set_tracked_games].
    split; [exact Hlow|]. split; [exact Hprice|].
    intros region price now. unfold_store. unfold stored_low.
    cbn [fst snd historical_low set_tracked_games]. rewrite Hlow.
    destruct (historical_low d !! (app_id, region)) as [row|]; cbn.
    + destruct (Qlt_bool price (lowest_price row) && Qlt_bool 0 price); cbn;
        rewrite ?Hlow; auto.
    + rewrite ?Hlow. auto.
Qed.

(** * Further properties *)

(** ** Relations kept by the loop body *)

Section TaskKeeps.
Context (R : db -> db -> Prop).
Context (R_refl : forall d, R d d).
Context (R_trans : forall d1 d2 d3, R d1 d2 -> R d2 d3 -> R d1 d3).

Lemma with_connection_keeps {A} (f : fault) (default : A) (body : db -> db * A) :
  (forall d, R d (fst (body d))) ->
  forall d, R d (fst (with_connection f default body d)).
Proof.
  intros Hbody d. destruct f; cbn; [|apply R_refl|apply R_refl].
  specialize (Hbody d). now destruct (body d).
Qed.

Lemma task_keeps_ret {A} (a : A) : task_keeps R (task_ret a).
Proof. intros d. apply R_refl. Qed.

Lemma task_keeps_send (e : embed) : task_keeps R (send e).
Proof. intros d. apply R_refl. Qed.

Lemma task_keeps_call {A} (f : db -> db * outcome A) :
  (forall d, R d (fst (f d))) -> task_keeps R (call f).
Proof. intros Hf d. unfold call. specialize (Hf d). now destruct (f d). Qed.

Lemma task_keeps_bind {A B} (m : task A) (k : A -> task B) :
  task_keeps R m -> (forall a, task_keeps R (k a)) -> task_keeps R (task_bind m k).
Proof.
  intros Hm Hk d. unfold task_bind. specialize (Hm d).
  destruct (m d) as [[d1 out1] [a|]]; [|exact Hm].
  specialize (Hk a d1). destruct (k a d1) as [[d2 out2] r]. cbn in *.
  eapply R_trans; eassumption.
Qed.

(** The loop body for a game keeps what its five store calls keep. *)
Context (app_id : Z).
Context (keeps_check_free : forall f is_free d,
           R d (fst (check_free_game f app_id is_free d))).
Context (keeps_free_event : forall f name now d,
           R d (fst (record_free_game_event f app_id name now d))).
Context (keeps_price : forall f region price discount now d,
           R d (fst (record_price f app_id region price discount now d))).
Context (keeps_low : forall f region price now d,
           R d (fst (check_historical_low f app_id region price now d))).
Context (keeps_low_event : forall f name region price cur now d,
           R d (fst (record_new_low_event f app_id name region price cur now d))).

Lemma monitor_game_task_keeps (flt : faults) (name : string)
    (info : game_info) (now : string) :
  task_keeps R (monitor_game_task flt app_id name info now).
Proof.
  unfold monitor_game_task.
  apply task_keeps_bind; [apply task_keeps_call, keeps_check_free|]. intros became_free.
  apply task_keeps_bind.
  { destruct became_free; [|apply task_keeps_ret].
    apply task_keeps_bind; [apply task_keeps_call, keeps_free_event|].
    intros _. apply task_keeps_send. }
  intros _. destruct (gi_price_overview info) as [p|]; [|apply task_keeps_ret].
  destruct (negb (default false (gi_is_free info))); [|apply task_keeps_ret].
  apply task_keeps_bind; [apply task_keeps_call, keeps_price|]. intros _.
  apply task_keeps_bind; [apply task_keeps_call, keeps_low|].
  intros [[[] old] drop]; [|apply task_keeps_ret].
  apply task_keeps_bind; [apply task_keeps_call, keeps_low_event|].
  intros _. apply task_keeps_send.
Qed.

Lemma monitor_game_keeps (flt : faults) (name : string)
    (info : game_info) (now : string) (d : db) :
  R d (fst (monitor_game flt app_id name info now d)).
Proof.
  unfold monitor_game. pose proof (monitor_game_task_keeps flt name info now d) as H.
  now destruct (monitor_game_task flt app_id name info now d) as [[d' out] r].
Qed.
End TaskKeeps.

(** ** What the monitoring task never does *)

Lemma tracked_le_refl (r : tracked_game) : tracked_le r r.
Proof. unfold tracked_le. auto. Qed.

Lemma tracked_le_trans (r1 r2 r3 : tracked_game) :
  tracked_le r1 r2 -> tracked_le r2 r3 -> tracked_le r1 r3.
Proof.
  unfold tracked_le. intros (? & ? & ? & ?) (? & ? & ? & ?).
  repeat split; try congruence; auto.
Qed.

Lemma only_grows_refl (d : db) : only_grows d d.
Proof.
  unfold only_grows. repeat split; try reflexivity.
  intros app_id. destruct (tracked_games d !! app_id); constructor. apply tracked_le_refl.
Qed.

Lemma only_grows_trans (d1 d2 d3 : db) :
  only_grows d1 d2 -> only_grows d2 d3 -> only_grows d1 d3.
Proof.
  intros (Hs1 & Hn1 & Ht1 & Hp1 & Hl1 & He1 & Hf1) (Hs2 & Hn2 & Ht2 & Hp2 & Hl2 & He2 & Hf2).
  unfold only_grows. repeat split; try congruence; try (etransitivity; eassumption).
  intros app_id. specialize (Ht1 app_id). specialize (Ht2 app_id).
  destruct Ht1 as [r1 r2 H12|]; inversion Ht2; subst; constructor.
  eapply tracked_le_trans; eassumption.
Qed.

Lemma check_free_game_grows (f : fault) (app_id : Z) (is_free : bool) (d : db) :
  only_grows d (fst (check_free_game f app_id is_free d)).
Proof.
  unfold check_free_game, record_free_game_event, record_new_low_event, record_price,
    check_historical_low.
  apply (with_connection_keeps only_grows only_grows_refl). clear d. intros d.
  destruct (tracked_games d !! app_id) as [row|] eqn:Hrow; [|apply only_grows_refl].
  cbv zeta.
  destruct (negb (tg_is_free row) && is_free) eqn:Hflip; [|apply only_grows_refl].
  unfold only_grows. cbn. repeat split; try reflexivity.
  intros other. destruct (decide (app_id = other)) as [<-|Hne].
  - rewrite lookup_insert_eq, Hrow. constructor. unfold tracked_le. cbn.
    repeat split. intros Hfree. now rewrite Hfree in Hflip.
  - rewrite lookup_insert_ne by assumption.
    destruct (tracked_games d !! other); constructor. apply tracked_le_refl.
Qed.

Lemma record_free_game_event_grows (f : fault) (app_id : Z) (name now : string) (d : db) :
  only_grows d (fst (record_free_game_event f app_id name now d)).
Proof.
  unfold check_free_game, record_free_game_event, record_new_low_event, record_price,
    check_historical_low.
  apply (with_connection_keeps only_grows only_grows_refl). clear d. intros d.
  destruct (only_grows_refl d) as (? & ? & ? & ? & ? & ? & ?).
  unfold only_grows. cbn. repeat split; try assumption. now apply prefix_app_r.
Qed.

Lemma record_new_low_event_grows (f : fault) (app_id : Z) (name region : string)
    (price : Q) (cur now : string) (d : db) :
  only_grows d (fst (record_new_low_event f app_id name region price cur now d)).
Proof.
  unfold check_free_game, record_free_game_event, record_new_low_event, record_price,
    check_historical_low.
  apply (with_connection_keeps only_grows only_grows_refl). clear d. intros d.
  destruct (only_grows_refl d) as (? & ? & ? & ? & ? & ? & ?).
  unfold only_grows. cbn. repeat split; try assumption. now apply prefix_app_r.
Qed.

Lemma record_price_grows (f : fault) (app_id : Z) (region : string) (price : Q)
    (discount : Z) (now : string) (d : db) :
  only_grows d (fst (record_price f app_id region price discount now d)).
Proof.
  unfold check_free_game, record_free_game_event, record_new_low_event, record_price,
    check_historical_low.
  apply (with_connection_keeps only_grows only_grows_refl). clear d. intros d.
  destruct (only_grows_refl d) as (? & ? & ? & ? & ? & ? & ?).
  unfold only_grows. cbn. repeat split; try assumption. apply dom_insert_subseteq.
Qed.

Lemma check_historical_low_grows (f : fault) (app_id : Z) (region : string) (price : Q)
    (now : string) (d : db) :
  only_grows d (fst (check_historical_low f app_id region price now d)).
Proof.
  unfold check_free_game, record_free_game_event, record_new_low_event, record_price,
    check_historical_low.
  apply (with_connection_keeps only_grows only_grows_refl). clear d. intros d.
  destruct (only_grows_refl d) as (? & ? & ? & ? & ? & ? & ?).
  destruct (historical_low d !! (app_id, region)) as [row|];
    [destruct (Qlt_bool price (lowest_price row) && Qlt_bool 0 price)|];
    unfold only_grows; cbn; repeat split; try assumption; apply dom_insert_subseteq.
Qed.

Lemma monitor_game_grows (flt : faults) (app_id : Z) (name : string)
    (info : game_info) (now : string) (d : db) :
  only_grows d (fst (monitor_game flt app_id name info now d)).
Proof.
  apply monitor_game_keeps.
  - apply only_grows_refl.
  - apply only_grows_trans.
  - intros. apply check_free_game_grows.
  - intros. apply record_free_game_event_grows.
  - intros. apply record_price_grows.
  - intros. apply check_historical_low_grows.
  - intros. apply record_new_low_event_grows.
Qed.

Lemma monitor_games_grows (flts : Z -> faults) (fetch : Z -> option game_info)
    (now : string) (games : list (Z * string)) (d : db) :
  only_grows d (fst (monitor_games flts fetch now games d)).
Proof.
  revert d. induction games as [|[app_id name] rest IH]; intros d; cbn.
  - apply only_grows_refl.
  - destruct (fetch app_id) as [info|]; [|apply IH].
    pose proof (monitor_game_grows (flts app_id) app_id name info now d) as Hstep.
    destruct (monitor_game (flts app_id) app_id name info now d) as [d1 out].
    specialize (IH d1). destruct (monitor_games flts fetch now rest d1) as [d2 outs].
    cbn in *. eapply only_grows_trans; eassumption.
Qed.

(** X1: whatever the storefront answers and whenever the store fails, a
    cycle of [monitor_prices] leaves the channel settings and the sale
    marks as they are, tracks the same games with the same name, time and
    image (a stored status can only turn from paid to free), loses no
    price row and no minimum row, and only appends to the two event
    logs. *)
Theorem monitor_prices_only_grows (on_select on_channels : fault) (flts : Z -> faults)
    (fetch : Z -> option game_info) (now : string) (d : db) :
  only_grows d (fst (monitor_prices on_select on_channels flts fetch now d)).
Proof.
  unfold monitor_prices.
  destruct on_select; [|apply only_grows_refl|apply only_grows_refl].
  destruct (get_all_notification_channels on_channels d) as [d0 [[|c cs]|]];
    [apply only_grows_refl | apply monitor_games_grows | apply only_grows_refl].
Qed.

(** ** One cycle of [monitor_prices] *)

Lemma same_game_refl (app_id : Z) (d : db) : same_game app_id d d.
Proof. unfold same_game. auto. Qed.

Lemma same_game_trans (app_id : Z) (d1 d2 d3 : db) :
  same_game app_id d1 d2 -> same_game app_id d2 d3 -> same_game app_id d1 d3.
Proof.
  intros (Ht1 & Hp1 & Hl1) (Ht2 & Hp2 & Hl2). unfold same_game.
  repeat split; intros; congruence.
Qed.

Ltac other_game :=
  unfold same_game; cbn; repeat split; intros;
  rewrite ?lookup_insert_ne by congruence; reflexivity.

(** The loop body for one game leaves the rows of every other game. *)
Lemma monitor_game_same_game (app_id other : Z) (flt : faults) (name : string)
    (info : game_info) (now : string) (d : db) :
  other <> app_id ->
  same_game app_id d (fst (monitor_game flt other name info now d)).
Proof.
  intros Hne. apply monitor_game_keeps.
  - apply same_game_refl.
  - apply same_game_trans.
  - intros f is_free d0. unfold check_free_game.
    apply (with_connection_keeps (same_game app_id) (same_game_refl app_id)). intros d1.
    destruct (tracked_games d1 !! other) as [row|]; [|apply same_game_refl]. cbv zeta.
    destruct (negb (tg_is_free row) && is_free); [other_game | apply same_game_refl].
  - intros f n t d0. unfold record_free_game_event.
    apply (with_connection_keeps (same_game app_id) (same_game_refl app_id)). intros d1.
    other_game.
  - intros f region price discount t d0. unfold record_price.
    apply (with_connection_keeps (same_game app_id) (same_game_refl app_id)). intros d1.
    other_game.
  - intros f region price t d0. unfold check_historical_low.
    apply (with_connection_keeps (same_game app_id) (same_game_refl app_id)). intros d1.
    destruct (historical_low d1 !! (other, region)) as [row|];
      [destruct (Qlt_bool price (lowest_price row) && Qlt_bool 0 price)|];
      try apply same_game_refl; other_game.
  - intros f n region price cur t d0. unfold record_new_low_event.
    apply (with_connection_keeps (same_game app_id) (same_game_refl app_id)). intros d1.
    other_game.
Qed.

Lemma monitor_games_same_game (app_id : Z) (flts : Z -> faults)
    (fetch : Z -> option game_info) (now : string) (games : list (Z * string)) (d : db) :
  app_id ∉ games.*1 ->
  same_game app_id d (fst (monitor_games flts fetch now games d)).
Proof.
  revert d. induction games as [|[other name] rest IH]; intros d Hnotin; cbn.
  - apply same_game_refl.
  - apply not_elem_of_cons in Hnotin as [Hne Hrest]. cbn in Hne.
    destruct (fetch other) as [info|]; [|now apply IH].
    pose proof (monitor_game_same_game app_id other (flts other) name info now d
                  (not_eq_sym Hne)) as Hstep.
    destruct (monitor_game (flts other) other name info now d) as [d1 out].
    specialize (IH d1 Hrest). destruct (monitor_games flts fetch now rest d1) as [d2 outs].
    cbn in *. eapply same_game_trans; eassumption.
Qed.

(** The loop body when the answer has neither a free game nor a price. *)
Lemma monitor_game_no_price (app_id : Z) (name : string) (info : game_info)
    (now : string) (d : db) :
  default false (gi_is_free info) = false ->
  gi_price_overview info = None ->
  monitor_game no_faults app_id name info now d = (d, []).
Proof.
  intros Hfree Hp. unfold_task. rewrite Hfree, Hp. cbn [no_faults on_check_free_game].
  now rewrite check_free_game_paid.
Qed.

(** The price row written by the loop body for a paid answer. *)
Lemma monitor_game_price_row (app_id : Z) (name : string) (info : game_info)
    (po : price_overview) (now : string) (d : db) :
  default false (gi_is_free info) = false ->
  gi_price_overview info = Some po ->
  price_history (fst (monitor_game no_faults app_id name info now d)) =
    <[(app_id, "tw", now) :=
        PriceRow (inject_Z (final po) / 100)%Q (default 0 (discount_percent po))]>
      (price_history d).
Proof.
  intros Hfree Hp. rewrite (monitor_game_paid _ _ _ po) by assumption. cbv zeta.
  unfold_store. cbn [historical_low set_price_history].
  destruct (historical_low d !! (app_id, "tw")) as [row|];
    [destruct (Qlt_bool _ (lowest_price row) && Qlt_bool 0 _)|]; reflexivity.
Qed.

Lemma select_games_fst (d : db) : (select_games d).*1 = (map_to_list (tracked_games d)).*1.
Proof.
  unfold select_games. rewrite <- list_fmap_compose. now apply list_fmap_ext.
Qed.

Lemma channels_configured (d : db) :
  server_settings d <> ∅ ->
  exists c cs, get_all_notification_channels NoFault d = (d, Returned (c :: cs)).
Proof.
  intros Hne. unfold get_all_notification_channels, with_connection.
  destruct (map_to_list (server_settings d)) as [|r rs] eqn:Hl.
  - apply map_to_list_empty_iff in Hl. contradiction.
  - cbn. eauto.
Qed.

Lemma monitor_games_processes (flts : Z -> faults) (fetch : Z -> option game_info)
    (now : string) (games : list (Z * string)) (d : db) (app_id : Z)
    (info : game_info) (po : price_overview) :
  NoDup games.*1 ->
  app_id ∈ games.*1 ->
  fetch app_id = Some info ->
  flts app_id = no_faults ->
  default false (gi_is_free info) = false ->
  gi_price_overview info = Some po ->
  let p := (inject_Z (final po) / 100)%Q in
  let d' := fst (monitor_games flts fetch now games d) in
  price_history d' !! (app_id, "tw", now) = Some (PriceRow p (default 0 (discount_percent po))) /\
  stored_low d' app_id "tw" =
    Some (match stored_low d app_id "tw" with
          | None => p
          | Some l => if Qlt_bool 0 p then Qmin l p else l
          end).
Proof.
  intros Hnodup Hin Hfetch Hflt Hfree Hp p. revert d Hnodup Hin.
  induction games as [|[other name] rest IH]; intros d Hnodup Hin; [inversion Hin|].
  cbn in Hnodup. apply NoDup_cons in Hnodup as [Hfresh Hnodup].
  cbn [monitor_games]. destruct (decide (other = app_id)) as [->|Hne].
  - rewrite Hfetch, Hflt.
    pose proof (monitor_game_price_row app_id name info po now d Hfree Hp) as Hrow.
    pose proof (monitor_game_stored_low d app_id name info now) as Hlow.
    unfold observed_price in Hlow. rewrite Hfree, Hp in Hlow. cbn [fmap option_fmap option_map] in Hlow.
    destruct (monitor_game no_faults app_id name info now d) as [d1 out]. cbn [fst] in Hrow, Hlow.
    pose proof (monitor_games_same_game app_id flts fetch now rest d1 Hfresh) as (_ & Hp' & Hl').
    destruct (monitor_games flts fetch now rest d1) as [d2 outs]. cbn [fst] in *.
    split.
    + rewrite Hp', Hrow. apply lookup_insert_eq.
    + unfold stored_low in *. rewrite Hl'. exact Hlow.
  - assert (Hin' : app_id ∈ rest.*1).
    { cbn in Hin. apply elem_of_cons in Hin as [Heq|Hin]; [congruence|exact Hin]. }
    destruct (fetch other) as [info'|].
    + pose proof (monitor_game_same_game app_id other (flts other) name info' now d Hne)
        as (_ & _ & Hl1).
      destruct (monitor_game (flts other) other name info' now d) as [d1 out]. cbn [fst] in Hl1.
      specialize (IH d1 Hnodup Hin').
      destruct (monitor_games flts fetch now rest d1) as [d2 outs]. cbn [fst] in *.
      unfold stored_low in *. rewrite <- (Hl1 "tw"). exact IH.
    + now apply IH.
Qed.

(** X2: a cycle does nothing at all (no price logged, no minimum set, no
    event, no embed) when no channel is configured, when reading the
    channels or the games fails, or when the storefront gives no answer
    for any game. *)
Theorem monitor_prices_idle (on_select on_channels : fault) (flts : Z -> faults)
    (fetch : Z -> option game_info) (now : string) (d : db) :
  server_settings d = ∅ \/ on_select <> NoFault \/ on_channels <> NoFault \/
    (forall app_id, fetch app_id = None) ->
  monitor_prices on_select on_channels flts fetch now d = (d, []).
Proof.
  intros Hidle. unfold monitor_prices, get_all_notification_channels, with_connection.
  destruct on_select; try reflexivity. destruct on_channels; try reflexivity.
  destruct Hidle as [Hempty | [Hs | [Hc | Hfetch]]]; try congruence.
  - rewrite Hempty, map_to_list_empty. reflexivity.
  - destruct (_ <$> map_to_list (server_settings d)); [reflexivity|].
    generalize (select_games d). intros games.
    induction games as [|[app_id name] rest IH]; [reflexivity|].
    cbn. now rewrite Hfetch.
Qed.

Lemma monitor_prices_idle_witness :
  monitor_prices NoFault NoFault (fun _ => no_faults) (fun _ => Some (paid 10000 "TWD")) "t0"
    (fst (add_tracked_game NoFault 730 "E" false None "t" empty_db))
  = (fst (add_tracked_game NoFault 730 "E" false None "t" empty_db), []).
Proof.
  apply (monitor_prices_idle NoFault NoFault (fun _ => no_faults)
           (fun _ => Some (paid 10000 "TWD")) "t0"
           (fst (add_tracked_game NoFault 730 "E" false None "t" empty_db))).
  left. reflexivity.
Defined.

(** X3: in a cycle with a channel configured and the store available,
    every tracked game the storefront answers as paid gets its price row
    for this cycle, and its stored minimum in region "tw" is updated by
    exactly one check against that price, however the other games fare. *)
Theorem monitor_prices_processes_every_game (flts : Z -> faults)
    (fetch : Z -> option game_info) (now : string) (d : db) (app_id : Z)
    (row : tracked_game) (info : game_info) (po : price_overview) :
  server_settings d <> ∅ ->
  tracked_games d !! app_id = Some row ->
  fetch app_id = Some info ->
  flts app_id = no_faults ->
  default false (gi_is_free info) = false ->
  gi_price_overview info = Some po ->
  let p := (inject_Z (final po) / 100)%Q in
  let d' := fst (monitor_prices NoFault NoFault flts fetch now d) in
  price_history d' !! (app_id, "tw", now) = Some (PriceRow p (default 0 (discount_percent po))) /\
  stored_low d' app_id "tw" =
    Some (match stored_low d app_id "tw" with
          | None => p
          | Some l => if Qlt_bool 0 p then Qmin l p else l
          end).
Proof.
  intros Hchan Hrow Hfetch Hflt Hfree Hp p. unfold monitor_prices.
  destruct (channels_configured d Hchan) as (c & cs & ->).
  apply monitor_games_processes with (info := info); try assumption.
  - rewrite select_games_fst. apply NoDup_fst_map_to_list.
  - rewrite select_games_fst. apply list_elem_of_fmap. exists (app_id, row).
    split; [reflexivity|]. now apply elem_of_map_to_list.
Qed.

Lemma monitor_prices_processes_every_game_witness :
  let d := fst (set_notification_channel NoFault 1 10 true "t"
                  (fst (add_tracked_game NoFault 730 "E" false None "t" empty_db))) in
  let d' := fst (monitor_prices NoFault NoFault (fun _ => no_faults)
                   (fun _ => Some (paid 10000 "TWD")) "t0" d) in
  price_history d' !! (730, "tw", "t0") = Some (PriceRow (inject_Z 10000 / 100)%Q 0) /\
  stored_low d' 730 "tw" = Some (inject_Z 10000 / 100)%Q.
Proof.
  apply (monitor_prices_processes_every_game (fun _ => no_faults)
           (fun _ => Some (paid 10000 "TWD")) "t0"
           (fst (set_notification_channel NoFault 1 10 true "t"
                   (fst (add_tracked_game NoFault 730 "E" false None "t" empty_db))))
           730 (TrackedGame "E" "t" false None) (paid 10000 "TWD")
           (PriceOverview 10000 "TWD" None)); try reflexivity.
  vm_compute. discriminate.
Defined.

(** ** Embeds and event rows *)

(** With the store available, the loop body appends one event row per
    embed it sends, in the same order, and nothing else. *)
Lemma monitor_game_rows (app_id : Z) (name : string) (info : game_info)
    (now : string) (d : db) :
  let '(d', out) := monitor_game no_faults app_id name info now d in
  new_low_events d' = new_low_events d ++ omap (new_low_row now) out /\
  free_game_events d' = free_game_events d ++ omap (free_game_row now) out.
Proof.
  destruct (default false (gi_is_free info)) eqn:Hfree.
  - rewrite monitor_game_free by assumption. unfold_store.
    destruct (tracked_games d !! app_id) as [row|];
      [destruct (tg_is_free row)|]; cbn; rewrite ?app_nil_r; auto.
  - destruct (gi_price_overview info) as [po|] eqn:Hp.
    + rewrite (monitor_game_paid _ _ _ po) by assumption. cbv zeta. unfold_store.
      cbn [historical_low set_price_history].
      destruct (historical_low d !! (app_id, "tw")) as [row|];
        [destruct (Qlt_bool _ (lowest_price row) && Qlt_bool 0 _)|];
        cbn; rewrite ?app_nil_r; auto.
    + rewrite monitor_game_no_price by assumption. cbn. rewrite !app_nil_r. auto.
Qed.

Lemma monitor_games_rows (flts : Z -> faults) (fetch : Z -> option game_info)
    (now : string) (games : list (Z * string)) (d : db) :
  (forall app_id, flts app_id = no_faults) ->
  let '(d', out) := monitor_games flts fetch now games d in
  new_low_events d' = new_low_events d ++ omap (new_low_row now) out /\
  free_game_events d' = free_game_events d ++ omap (free_game_row now) out.
Proof.
  intros Hflts. revert d. induction games as [|[app_id name] rest IH]; intros d; cbn.
  - rewrite !app_nil_r. auto.
  - destruct (fetch app_id) as [info|]; [|apply IH]. rewrite Hflts.
    pose proof (monitor_game_rows app_id name info now d) as Hstep.
    destruct (monitor_game no_faults app_id name info now d) as [d1 out].
    specialize (IH d1). destruct (monitor_games flts fetch now rest d1) as [d2 outs].
    destruct Hstep as [Hn1 Hf1]. destruct IH as [Hn2 Hf2].
    rewrite Hn2, Hn1, Hf2, Hf1, !omap_app, !app_assoc. auto.
Qed.

(** X4: in a cycle during which the store is available, the rows
    appended to [new_low_events] and to [free_game_events] are exactly
    the rows of the embeds sent, one for one and in the order of
    sending: no embed without its row, no row without its embed. *)
Theorem monitor_prices_rows_match_embeds (fetch : Z -> option game_info)
    (now : string) (d : db) :
  let '(d', out) := monitor_prices NoFault NoFault (fun _ => no_faults) fetch now d in
  new_low_events d' = new_low_events d ++ omap (new_low_row now) out /\
  free_game_events d' = free_game_events d ++ omap (free_game_row now) out.
Proof.
  unfold monitor_prices.
  destruct (get_all_notification_channels NoFault d) as [d0 [[|c cs]|]];
    try (cbn; rewrite !app_nil_r; auto).
  now apply monitor_games_rows.
Qed.

(** ** The free-game embed over the life of a tracked row *)

(** One turn of the loop, seen from the stored status of the game. *)
Lemma monitor_game_stored_free (app_id : Z) (name : string) (info : game_info)
    (now : string) (d : db) :
  let '(d', out) := monitor_game no_faults app_id name info now d in
  stored_free d' app_id =
    match stored_free d app_id with
    | Some false => Some (default false (gi_is_free info))
    | s => s
    end /\
  existsb is_free_game_notice out =
    match stored_free d app_id with
    | Some false => default false (gi_is_free info)
    | _ => false
    end.
Proof.
  unfold stored_free. destruct (default false (gi_is_free info)) eqn:Hfree.
  - rewrite monitor_game_free by assumption. unfold_store.
    destruct (tracked_games d !! app_id) as [row|] eqn:Hrow; cbn; [|now rewrite Hrow].
    destruct (tg_is_free row) eqn:Hstored; cbn; rewrite ?lookup_insert_eq, ?Hrow; cbn;
      rewrite ?Hstored; auto.
  - destruct (gi_price_overview info) as [po|] eqn:Hp.
    + rewrite (monitor_game_paid _ _ _ po) by assumption. cbv zeta. unfold_store.
      cbn [historical_low set_price_history].
      destruct (historical_low d !! (app_id, "tw")) as [row|];
        [destruct (Qlt_bool _ (lowest_price row) && Qlt_bool 0 _)|];
        cbn; destruct (tracked_games d !! app_id) as [[? ? [] ?]|]; split; reflexivity.
    + rewrite monitor_game_no_price by assumption. cbn.
      destruct (tracked_games d !! app_id) as [[? ? [] ?]|]; split; reflexivity.
Qed.

(** The cycles that send the free-game embed, and the stored status
    after a run. *)
Lemma free_cycles_count (app_id : Z) (name : string)
    (obs : list (game_info * string)) (d : db) :
  free_cycles (snd (monitor_game_seq app_id name obs d)) =
    match stored_free d app_id with
    | Some false =>
        if existsb (fun o => default false (gi_is_free (fst o))) obs then 1%nat else 0%nat
    | _ => 0%nat
    end /\
  stored_free (fst (monitor_game_seq app_id name obs d)) app_id =
    match stored_free d app_id with
    | Some false => Some (existsb (fun o => default false (gi_is_free (fst o))) obs)
    | s => s
    end.
Proof.
  revert d. induction obs as [|[info now] rest IH]; intros d.
  - cbn. now destruct (stored_free d app_id) as [[]|].
  - cbn [monitor_game_seq existsb fst].
    pose proof (monitor_game_stored_free app_id name info now d) as Hstep.
    destruct (monitor_game no_faults app_id name info now d) as [d1 out].
    specialize (IH d1). destruct (monitor_game_seq app_id name rest d1) as [d2 outs].
    cbn [fst snd] in *. destruct Hstep as [Hst Hout]. destruct IH as [IHc IHs].
    unfold free_cycles in *. cbn [List.filter]. rewrite Hout, IHs, Hst.
    destruct (stored_free d app_id) as [[]|]; cbn [length];
      rewrite ?IHc, ?Hst; try (split; reflexivity).
    destruct (default false (gi_is_free info)); cbn; rewrite IHc, Hst; auto.
Qed.

(** X5: over any number of cycles with the store available, the
    free-game embed of a game is sent in at most one cycle: in exactly
    one when the game is stored as paid at the start and some answer
    says it is free, in none otherwise (no row, or stored as free).
    After that cycle the stored status is free for good. *)
Theorem free_game_embed_at_most_once (app_id : Z) (name : string)
    (obs : list (game_info * string)) (d : db) :
  let '(d', outs) := monitor_game_seq app_id name obs d in
  free_cycles outs =
    match stored_free d app_id with
    | Some false =>
        if existsb (fun o => default false (gi_is_free (fst o))) obs then 1%nat else 0%nat
    | _ => 0%nat
    end /\
  (free_cycles outs <= 1)%nat /\
  (free_cycles outs = 1%nat -> stored_free d' app_id = Some true).
Proof.
  pose proof (free_cycles_count app_id name obs d) as Hcount.
  destruct (monitor_game_seq app_id name obs d) as [d' outs].
  cbn [fst snd] in Hcount. destruct Hcount as [Hc Hs]. split; [exact Hc|].
  rewrite Hc, Hs. destruct (stored_free d app_id) as [[]|];
    try (split; [lia | discriminate]).
  destruct (existsb _ obs); split; try lia; auto; discriminate.
Qed.

(** ** The tracking list *)

Lemma db_eta (d : db) :
  Db (price_history d) (tracked_games d) (historical_low d) (server_settings d)
     (new_low_events d) (free_game_events d) (sale_notifications d) = d.
Proof. now destruct d. Qed.

(** X6: adding a game that was not tracked and then removing it gives
    back the store as it was, and the removal answers with the name the
    game was added under. *)
Theorem add_then_untrack (app_id : Z) (name : string) (is_free : bool)
    (image_url : option string) (now : string) (d : db) :
  tracked_games d !! app_id = None ->
  untrack_game NoFault app_id
    (fst (add_tracked_game NoFault app_id name is_free image_url now d))
  = (d, Removed name).
Proof.
  intros Hnone. unfold add_tracked_game, with_connection, untrack_game. cbn.
  rewrite lookup_insert_eq. cbn. unfold set_tracked_games. cbn.
  rewrite delete_insert_id by assumption. now rewrite db_eta.
Qed.

Lemma add_then_untrack_witness :
  untrack_game NoFault 730
    (fst (add_tracked_game NoFault 730 "E" false None "t" empty_db))
  = (empty_db, Removed "E").
Proof. apply (add_then_untrack 730 "E" false None "t" empty_db). reflexivity. Defined.

(** X7: [untrack_game] answers with the stored name exactly when the
    game has a row, and otherwise says it is not tracked and changes
    nothing; removing again right after a removal always finds nothing
    and changes nothing; when the store is not available the answer is a
    failure and nothing changes. *)
Theorem untrack_game_replies (f : fault) (app_id : Z) (d : db) :
  (forall row, tracked_games d !! app_id = Some row ->
     snd (untrack_game NoFault app_id d) = Removed (tg_name row)) /\
  (tracked_games d !! app_id = None ->
     untrack_game NoFault app_id d = (d, NotTracked app_id)) /\
  untrack_game NoFault app_id (fst (untrack_game NoFault app_id d))
    = (fst (untrack_game NoFault app_id d), NotTracked app_id) /\
  (f <> NoFault -> untrack_game f app_id d = (d, OperationFailed)).
Proof.
  unfold untrack_game. repeat split.
  - intros row Hrow. now rewrite Hrow.
  - intros Hnone. now rewrite Hnone.
  - destruct (tracked_games d !! app_id) eqn:Hrow; cbn.
    + now rewrite lookup_delete_eq.
    + now rewrite Hrow.
  - intros Hf. now destruct f.
Qed.

(** X8: when [/追蹤] succeeds the row of the game holds the answer's name,
    image and status, whatever was stored before, and no price, minimum
    or event row changes.  So a game tracked while the storefront says it
    is free never gets the free-game embed in later cycles, and tracking
    a game again while it is paid makes the embed due again: it is then
    sent in exactly one later cycle if some answer says free. *)
Theorem track_game_sets_status (app_id : Z) (game_name : option string)
    (info : game_info) (now : string) (d : db) (obs : list (game_info * string)) :
  let name := default "Unknown" game_name in
  let is_free := default false (gi_is_free info) in
  let d1 := fst (track_game NoFault NoFault app_id (Some (game_name, info)) now d) in
  tracked_games d1 !! app_id = Some (TrackedGame name now is_free (gi_header_image info)) /\
  (forall other, other <> app_id -> tracked_games d1 !! other = tracked_games d !! other) /\
  (price_history d1 = price_history d /\ historical_low d1 = historical_low d /\
   new_low_events d1 = new_low_events d /\ free_game_events d1 = free_game_events d) /\
  free_cycles (snd (monitor_game_seq app_id name obs d1)) =
    if is_free then 0%nat
    else if existsb (fun o => default false (gi_is_free (fst o))) obs then 1%nat else 0%nat.
Proof.
  cbv zeta. unfold track_game, get_historical_low_price, add_tracked_game, with_connection.
  cbn [fst snd].
  assert (Hrow : tracked_games
            (set_tracked_games
               (<[app_id := TrackedGame (default "Unknown" game_name) now
                              (default false (gi_is_free info)) (gi_header_image info)]>
                  (tracked_games d)) d) !! app_id
          = Some (TrackedGame (default "Unknown" game_name) now
                    (default false (gi_is_free info)) (gi_header_image info)))
    by (cbn; apply lookup_insert_eq).
  split; [exact Hrow|]. split.
  { intros other Hne. cbn. now apply lookup_insert_ne. }
  split; [cbn; auto|].
  destruct (free_cycles_count app_id (default "Unknown" game_name) obs
              (set_tracked_games
                 (<[app_id := TrackedGame (default "Unknown" game_name) now
                                (default false (gi_is_free info)) (gi_header_image info)]>
                    (tracked_games d)) d)) as [Hc _].
  rewrite Hc. unfold stored_free. rewrite Hrow. cbn.
  now destruct (default false (gi_is_free info)).
Qed.


(** ** Notification channels *)

(** X10: after [set_notification_channel] for a guild, the rows
    [get_all_notification_channels] returns are the new row of that
    guild and the earlier rows of the other guilds: registering again
    replaces the guild's row, and no guild ever has two rows. *)
Theorem set_notification_channel_replaces (guild_id channel_id : Z) (enable_sale : bool)
    (now : string) (d : db) :
  let d' := fst (set_notification_channel NoFault guild_id channel_id enable_sale now d) in
  exists before after,
    get_all_notification_channels NoFault d = (d, Returned before) /\
    get_all_notification_channels NoFault d' = (d', Returned after) /\
    (forall g c e, (g, c, e) ∈ after <->
       (g, c, e) = (guild_id, channel_id, enable_sale) \/ ((g, c, e) ∈ before /\ g <> guild_id)) /\
    NoDup (after.*1.*1).
Proof.
  cbv zeta. unfold set_notification_channel, get_all_notification_channels, with_connection.
  cbn [fst snd server_settings set_server_settings].
  eexists. eexists. split; [reflexivity|]. split; [reflexivity|]. split.
  - intros g c e. rewrite !list_elem_of_fmap. split.
    + intros ([g' r] & Heq & Hin). cbn in Heq. inversion Heq; subst.
      apply elem_of_map_to_list in Hin. destruct (decide (guild_id = g')) as [->|Hne].
      * rewrite lookup_insert_eq in Hin. inversion Hin; subst. now left.
      * rewrite lookup_insert_ne in Hin by assumption. right. split; [|congruence].
        exists (g', r). split; [reflexivity|]. now apply elem_of_map_to_list.
    + intros [Heq | [([g' r] & Heq & Hin) Hne]].
      * inversion Heq; subst.
        exists (guild_id, ServerSetting channel_id now enable_sale). split; [reflexivity|].
        apply elem_of_map_to_list. apply lookup_insert_eq.
      * cbn in Heq. inversion Heq; subst. exists (g', r). split; [reflexivity|].
        apply elem_of_map_to_list. rewrite lookup_insert_ne by congruence.
        now apply elem_of_map_to_list.
  - rewrite <- !list_fmap_compose.
    match goal with
    | |- NoDup (?f <$> ?l) =>
        replace (f <$> l) with (l.*1) by (apply list_fmap_ext; now intros ? [? ?] ?)
    end.
    apply NoDup_fst_map_to_list.
Qed.

(** ** The sales calendar, continued *)

Lemma days_before_year_step (y : Z) :
  days_before_year (y + 1) = days_before_year y + 365 + (if is_leap y then 1 else 0).
Proof.
  unfold days_before_year, is_leap. cbv zeta. replace (y + 1 - 1) with y by lia.
  destruct (y mod 4 =? 0) eqn:H4; destruct (y mod 100 =? 0) eqn:H100;
    destruct (y mod 400 =? 0) eqn:H400; cbn;
    rewrite ?Z.eqb_eq, ?Z.eqb_neq in *;
    Z.div_mod_to_equations; lia.
Qed.

Lemma table_nonneg (n : nat) :
  0 <= nth n [0; 31; 59; 90; 120; 151; 181; 212; 243; 273; 304; 334] 0.
Proof. do 13 (destruct n as [|n]; [cbn; lia|]). cbn. destruct n; lia. Qed.

Lemma days_before_month_nonneg (y m : Z) : 0 <= days_before_month y m.
Proof.
  unfold days_before_month. pose proof (table_nonneg (Z.to_nat (m - 1))).
  destruct ((2 <? m) && is_leap y); lia.
Qed.

Lemma day_of_year_bound (y m d : Z) :
  1 <= m <= 12 -> d <= 31 ->
  days_before_month y m + d <= 365 + (if is_leap y then 1 else 0).
Proof.
  intros Hm Hd. unfold days_before_month.
  assert (Hcases : m = 1 \/ m = 2 \/ m = 3 \/ m = 4 \/ m = 5 \/ m = 6 \/ m = 7 \/ m = 8 \/
                   m = 9 \/ m = 10 \/ m = 11 \/ m = 12) by lia.
  destruct (is_leap y);
    repeat (destruct Hcases as [-> | Hcases];
            [set (t := nth _ _ _); vm_compute in t; subst t; cbn; lia|]);
    subst; set (t := nth _ _ _); vm_compute in t; subst t; cbn; lia.
Qed.

(** X12: for a clock reading with a month from 1 to 12, a day up to 31
    and a time within the day, and a sale that starts on day 1 or later
    of its month, the start [check_upcoming_sales] measures against is
    never before [now]: [days_until] is never negative, so the lower
    bound of the test [0 <= days_until <= 7] never excludes a sale. *)
Theorem sale_date_not_past (now : datetime) (info : sale_info) :
  1 <= month now <= 12 -> day now <= 31 ->
  0 <= time_of_day now < microseconds_per_day ->
  1 <= si_start_day info ->
  to_microseconds now <= to_microseconds (sale_date now info) /\
  0 <= days_until now info.
Proof.
  intros Hm Hd Ht Hs.
  assert (Hle : to_microseconds now <= to_microseconds (sale_date now info)).
  { unfold sale_date. cbv zeta.
    destruct (datetime_ltb (midnight (year now) (si_month info) (si_start_day info)) now) eqn:Hlt.
    - unfold to_microseconds, toordinal, midnight. cbn [year month day hour minute second microsecond time_of_day].
      unfold time_of_day in Ht.
      pose proof (days_before_year_step (year now)) as Hstep.
      pose proof (day_of_year_bound (year now) (month now) (day now) Hm Hd) as Hday.
      pose proof (days_before_month_nonneg (year now + 1) (si_month info)) as Hnext.
      assert (Hord : days_before_year (year now) + days_before_month (year now) (month now)
                     + day now + 1
                     <= days_before_year (year now + 1)
                        + days_before_month (year now + 1) (si_month info)
                        + si_start_day info) by lia.
      revert Hord Ht. clear. unfold microseconds_per_day.
      generalize (days_before_year (year now) + days_before_month (year now) (month now) + day now).
      generalize (days_before_year (year now + 1)
                  + days_before_month (year now + 1) (si_month info) + si_start_day info).
      intros a b Hord Ht. unfold time_of_day. cbn. lia.
    - unfold datetime_ltb in Hlt. apply Z.ltb_ge in Hlt. exact Hlt. }
  split; [exact Hle|].
  unfold days_until, timedelta_days. apply Z.div_pos; [lia | reflexivity].
Qed.

(** X11: [check_upcoming_sales] returns exactly the sales of the calendar
    whose [days_until] lies between 0 and 7, each with the start date it
    was measured against, that number of days, its emoji and its
    duration. *)
Theorem check_upcoming_sales_due (now : datetime) (s : upcoming_sale) :
  In s (check_upcoming_sales now) <->
  exists sale_name info,
    In (sale_name, info) STEAM_SALES_CALENDAR /\
    0 <= days_until now info <= 7 /\
    s = UpcomingSale sale_name (sale_date now info) (days_until now info)
          (si_emoji info) (si_duration info).
Proof. exact (upcoming_sales_of_spec STEAM_SALES_CALENDAR now s). Qed.

Lemma sale_date_not_past_witness :
  let now := DateTime 2025 12 25 10 0 0 0 in
  let winter := SaleInfo 12 20 14 "❄️" in
  to_microseconds now <= to_microseconds (sale_date now winter) /\
  0 <= days_until now winter.
Proof.
  apply (sale_date_not_past (DateTime 2025 12 25 10 0 0 0) (SaleInfo 12 20 14 "❄️"));
    vm_compute; repeat split; (discriminate || reflexivity).
Defined.

(** X13: how [days_until] counts when this year's start is not yet
    behind [now]: with [k] the number of calendar days from today to the
    start day, it is [k] on a run at midnight sharp and [k - 1] on a run
    at any later time of the day. *)
Theorem days_until_counts_full_days (now : datetime) (info : sale_info) :
  0 <= time_of_day now < microseconds_per_day ->
  let k := toordinal (midnight (year now) (si_month info) (si_start_day info))
           - toordinal now in
  (if time_of_day now =? 0 then 0 <= k else 1 <= k) ->
  sale_date now info = midnight (year now) (si_month info) (si_start_day info) /\
  days_until now info = (if time_of_day now =? 0 then k else k - 1).
Proof.
  intros Ht k Hk.
  assert (Hmid : to_microseconds (midnight (year now) (si_month info) (si_start_day info))
                 = toordinal (midnight (year now) (si_month info) (si_start_day info))
                   * microseconds_per_day).
  { unfold to_microseconds, time_of_day, midnight. cbn. lia. }
  assert (Hdate : sale_date now info
                  = midnight (year now) (si_month info) (si_start_day info)).
  { unfold sale_date. cbv zeta.
    replace (datetime_ltb _ now) with false; [reflexivity|].
    symmetry. apply Z.ltb_ge. rewrite Hmid. unfold to_microseconds. subst k.
    revert Hk Ht. unfold microseconds_per_day.
    generalize (toordinal (midnight (year now) (si_month info) (si_start_day info))).
    generalize (toordinal now). generalize (time_of_day now). intros t a b Hk Ht.
    destruct (t =? 0) eqn:Ht0; [apply Z.eqb_eq in Ht0|]; nia. }
  split; [exact Hdate|].
  unfold days_until, timedelta_days. rewrite Hdate, Hmid. unfold to_microseconds. subst k.
  revert Hk Ht. unfold microseconds_per_day.
  generalize (toordinal (midnight (year now) (si_month info) (si_start_day info))).
  generalize (toordinal now). generalize (time_of_day now). intros t a b Hk Ht.
  destruct (t =? 0) eqn:Ht0.
  - apply Z.eqb_eq in Ht0. subst t.
    replace (b * (86400 * 1000000) - (a * (86400 * 1000000) + 0))
      with ((b - a) * (86400 * 1000000)) by lia.
    apply Z.div_mul. lia.
  - apply Z.eqb_neq in Ht0. symmetry. apply Z.div_unique with (r := 86400 * 1000000 - t); lia.
Qed.

Lemma days_until_counts_full_days_witness :
  let now := DateTime 2025 3 11 10 0 0 0 in
  let spring := SaleInfo 3 14 14 "🌸" in
  sale_date now spring = midnight 2025 3 14 /\ days_until now spring = 2.
Proof.
  apply (days_until_counts_full_days (DateTime 2025 3 11 10 0 0 0) (SaleInfo 3 14 14 "🌸")).
  - vm_compute. split; [discriminate | reflexivity].
  - vm_compute. discriminate.
Defined.

(** ** Announced sales *)

Lemma is_sale_notified_spec (sale_name : string) (y : Z) (d : db) :
  is_sale_notified NoFault sale_name y d
  = (d, Returned (bool_decide ((sale_name, y) ∈ sale_key <$> sale_notifications d))).
Proof.
  unfold is_sale_notified, with_connection. f_equal. f_equal.
  destruct (existsb (same_sale sale_name y) (sale_notifications d)) eqn:Hex; symmetry.
  - apply bool_decide_eq_true. apply list_elem_of_In. now apply existsb_same_sale.
  - apply bool_decide_eq_false. intros Hin. apply list_elem_of_In in Hin.
    apply (proj2 (existsb_same_sale _ _ _)) in Hin. congruence.
Qed.

(** X15: [mark_sale_notified] marks its own [(sale_name, year)] and no
    other: afterwards [is_sale_notified] answers [True] for that pair and
    answers for every other pair what it answered before; no other
    relation changes and no earlier row is touched. *)
Theorem mark_then_is_notified (sale_name other : string) (y y' : Z) (now : string) (d : db) :
  let d' := fst (mark_sale_notified NoFault sale_name y now d) in
  is_sale_notified NoFault sale_name y d' = (d', Returned true) /\
  ((other, y') <> (sale_name, y) ->
   snd (is_sale_notified NoFault other y' d') = snd (is_sale_notified NoFault other y' d)) /\
  sale_notifications d `prefix_of` sale_notifications d' /\
  set_sale_notifications (sale_notifications d) d' = d.
Proof.
  cbv zeta. rewrite !is_sale_notified_spec. unfold mark_sale_notified, with_connection.
  destruct (existsb (same_sale sale_name y) (sale_notifications d)) eqn:Hex; cbn [fst snd].
  - repeat split.
    + f_equal. f_equal. apply bool_decide_eq_true. apply list_elem_of_In.
      now apply existsb_same_sale.
    + reflexivity.
    + now destruct d.
  - cbn [sale_notifications set_sale_notifications]. repeat split.
    + f_equal. f_equal. apply bool_decide_eq_true. rewrite fmap_app.
      apply elem_of_app. right. cbn. apply list_elem_of_singleton. reflexivity.
    + intros Hne. f_equal. apply bool_decide_ext. rewrite fmap_app, elem_of_app. cbn.
      rewrite list_elem_of_singleton. unfold sale_key at 2. cbn. tauto.
    + now apply prefix_app_r.
    + now destruct d.
Qed.

Lemma deliver_sale_sound (chan : Z -> Z -> channel_state)
    (channels_info : list (Z * Z * bool)) (e e' : sale_embed) (c : Z) :
  (c, e') ∈ fst (deliver_sale chan channels_info e) ->
  e' = e /\ exists g, chan g c = Delivers /\ (g, c, true) ∈ channels_info.
Proof.
  assert (Hrest : forall (x : Z * Z * bool) rest,
            (e' = e /\ exists g, chan g c = Delivers /\ (g, c, true) ∈ rest) ->
            e' = e /\ exists g, chan g c = Delivers /\ (g, c, true) ∈ x :: rest).
  { intros x rest (He & g & Hc & Hg). split; [exact He|].
    exists g. split; [exact Hc|]. now right. }
  induction channels_info as [|[[g c0] en] rest IH]; cbn [deliver_sale].
  - intros H. inversion H.
  - destruct en; [|intros H; apply Hrest; now apply IH].
    destruct (chan g c0) eqn:Hc.
    + intros H. apply Hrest. now apply IH.
    + destruct (deliver_sale chan rest e) as [sent r]. cbn [fst] in *.
      intros H. apply elem_of_cons in H as [Heq | H]; [|apply Hrest; now apply IH].
      inversion Heq; subst. split; [reflexivity|].
      exists g. split; [exact Hc|]. now left.
    + intros H. inversion H.
Qed.

(** When no enabled row raises, the loop over the channels ends normally
    and has served every enabled channel the bot resolves. *)
Lemma deliver_sale_returns (chan : Z -> Z -> channel_state)
    (channels_info : list (Z * Z * bool)) (e : sale_embed) :
  sends_succeed chan channels_info ->
  snd (deliver_sale chan channels_info e) = Returned tt /\
  forall g c, (g, c, true) ∈ channels_info -> chan g c = Delivers ->
    (c, e) ∈ fst (deliver_sale chan channels_info e).
Proof.
  induction channels_info as [|[[g0 c0] en] rest IH]; intros Hok; cbn [deliver_sale].
  - split; [reflexivity|]. intros g c H. inversion H.
  - assert (Hok' : sends_succeed chan rest).
    { intros g c Hin. apply (Hok g c). now right. }
    destruct (IH Hok') as (Hr & Hall).
    destruct en.
    + destruct (chan g0 c0) eqn:Hc.
      * split; [exact Hr|]. intros g c Hin Hd.
        apply elem_of_cons in Hin as [Heq | Hin]; [|now apply (Hall g c)].
        inversion Heq; subst. congruence.
      * destruct (deliver_sale chan rest e) as [sent r]. cbn [fst snd] in *.
        split; [exact Hr|]. intros g c Hin Hd.
        apply elem_of_cons in Hin as [Heq | Hin].
        -- inversion Heq; subst. now left.
        -- right. now apply (Hall g c).
      * exfalso. apply (Hok g0 c0); [now left | exact Hc].
    + split; [exact Hr|]. intros g c Hin Hd.
      apply elem_of_cons in Hin as [Heq | Hin]; [inversion Heq|]. now apply (Hall g c).
Qed.

(** When the [send] at an enabled row raises, the loop over the channels
    is left by the exception. *)
Lemma deliver_sale_raises (chan : Z -> Z -> channel_state)
    (channels_info : list (Z * Z * bool)) (e : sale_embed) (g c : Z) :
  (g, c, true) ∈ channels_info -> chan g c = SendRaises ->
  snd (deliver_sale chan channels_info e) = Raised.
Proof.
  intros Hin Hc. induction channels_info as [|[[g0 c0] en] rest IH]; [inversion Hin|].
  cbn [deliver_sale]. apply elem_of_cons in Hin as [Heq | Hin].
  - inversion Heq; subst. now rewrite Hc.
  - specialize (IH Hin). destruct en; [|exact IH].
    destruct (chan g0 c0); [exact IH | | reflexivity].
    destruct (deliver_sale chan rest e) as [sent r]. exact IH.
Qed.

Lemma channels_spec (d : db) (g c : Z) (en : bool) (l : list (Z * Z * bool)) :
  get_all_notification_channels NoFault d = (d, Returned l) ->
  (g, c, en) ∈ l <->
  exists setup, server_settings d !! g = Some (ServerSetting c setup en).
Proof.
  unfold get_all_notification_channels, with_connection. intros [= <-].
  rewrite list_elem_of_fmap. split.
  - intros ([g' [c' setup en']] & Heq & Hin). cbn in Heq. inversion Heq; subst.
    exists setup. now apply elem_of_map_to_list.
  - intros (setup & Hrow). exists (g, ServerSetting c setup en). split; [reflexivity|].
    now apply elem_of_map_to_list.
Qed.


Lemma mark_sale_notified_effect (sale_name : string) (y : Z) (now : string) (d : db) :
  (sale_name, y) ∉ sale_key <$> sale_notifications d ->
  mark_sale_notified NoFault sale_name y now d
  = (set_sale_notifications (sale_notifications d ++ [SaleNotification sale_name now y]) d,
     Returned tt).
Proof.
  intros Hnot. unfold mark_sale_notified, with_connection.
  destruct (existsb (same_sale sale_name y) (sale_notifications d)) eqn:Hex; [|reflexivity].
  apply existsb_same_sale in Hex. apply list_elem_of_In in Hex. contradiction.
Qed.

Lemma marked_after_mark (d : db) (h s : upcoming_sale) (stamp : string) :
  marked (set_sale_notifications
            (sale_notifications d ++ [SaleNotification (us_name h) stamp (year (us_date h))]) d) s
  <-> marked d s \/ (us_name s, year (us_date s)) = (us_name h, year (us_date h)).
Proof.
  unfold marked. cbn [sale_notifications set_sale_notifications].
  rewrite fmap_app, elem_of_app. cbn. rewrite list_elem_of_singleton. reflexivity.
Qed.

(** The loop over the upcoming sales, with the store available. *)
Lemma announce_sales_spec (chan : string -> Z -> Z -> channel_state)
    (channels_info : list (Z * Z * bool))
    (stamp : string) (upcoming : list upcoming_sale) (d : db) :
  let '(d', out, r) :=
    announce_sales no_sale_faults chan channels_info stamp upcoming d in
  set_sale_notifications (sale_notifications d) d' = d /\
  sale_notifications d `prefix_of` sale_notifications d' /\
  (forall c e, (c, e) ∈ out ->
     exists s, s ∈ upcoming /\ e = sale_embed_of s /\ ~ marked d s /\
               exists g, chan (us_name s) g c = Delivers /\ (g, c, true) ∈ channels_info) /\
  (r = Returned tt -> forall s, s ∈ upcoming -> marked d' s) /\
  ((forall n, sends_succeed (chan n) channels_info) -> r = Returned tt) /\
  (forall s, s ∈ upcoming -> ~ marked d s ->
     (exists g c, (g, c, true) ∈ channels_info /\ chan (us_name s) g c = SendRaises) ->
     ~ marked d' s).
Proof.
  revert d. induction upcoming as [|s rest IH]; intros d.
  - cbn. split; [now destruct d|]. split; [reflexivity|]. split; [|split; [|split; [auto|]]].
    + intros c e Hin. inversion Hin.
    + intros _ s Hin. inversion Hin.
    + intros s Hin. inversion Hin.
  - cbn [announce_sales no_sale_faults on_is_sale_notified on_mark_sale_notified].
    rewrite is_sale_notified_spec.
    destruct (bool_decide _) eqn:Hmarked.
    + apply bool_decide_eq_true in Hmarked.
      specialize (IH d).
      destruct (announce_sales no_sale_faults chan channels_info stamp rest d)
        as [[d' out] r].
      destruct IH as (Hsame & Hpre & Hout & Hall & Hret & Hraise).
      split; [exact Hsame|]. split; [exact Hpre|]. split; [|split; [|split; [exact Hret|]]].
      * intros c e Hin. destruct (Hout c e Hin) as (s' & Hs' & He & Hnm & Hk).
        exists s'. split; [now right|]. auto.
      * intros Hr s' Hin. apply elem_of_cons in Hin as [-> | Hin]; [|now apply Hall].
        unfold marked in *. destruct Hpre as [k ->]. rewrite fmap_app.
        apply elem_of_app. now left.
      * intros s' Hin Hnm. apply elem_of_cons in Hin as [-> | Hin]; [|now apply Hraise].
        contradiction.
    + apply bool_decide_eq_false in Hmarked.
      destruct (deliver_sale (chan (us_name s)) channels_info (sale_embed_of s))
        as [sent rd] eqn:Hdel.
      assert (Hsent : forall c e, (c, e) ∈ sent ->
                e = sale_embed_of s /\
                exists g, chan (us_name s) g c = Delivers /\ (g, c, true) ∈ channels_info).
      { intros c e Hin.
        apply (deliver_sale_sound (chan (us_name s)) channels_info (sale_embed_of s)).
        now rewrite Hdel. }
      destruct rd as [[]|].
      * assert (Hquiet : forall g c, (g, c, true) ∈ channels_info ->
                  chan (us_name s) g c <> SendRaises).
        { intros g c Hin Hc.
          pose proof (deliver_sale_raises (chan (us_name s)) channels_info
                        (sale_embed_of s) g c Hin Hc) as Hr.
          rewrite Hdel in Hr. discriminate. }
        rewrite mark_sale_notified_effect by exact Hmarked.
        pose proof (marked_after_mark d s) as Hmk.
        set (d1 := set_sale_notifications _ d) in *.
        specialize (IH d1).
        destruct (announce_sales no_sale_faults chan channels_info stamp rest d1)
          as [[d' out] r].
        destruct IH as (Hsame & Hpre & Hout & Hall & Hret & Hraise).
        assert (Hpre' : sale_notifications d `prefix_of` sale_notifications d').
        { etransitivity; [|exact Hpre]. subst d1. cbn. now apply prefix_app_r. }
        split; [|split; [exact Hpre'|]]; [|split; [|split; [|split; [exact Hret|]]]].
        -- subst d1. destruct d, d'. cbn in *. now inversion Hsame.
        -- intros c e Hin. apply elem_of_app in Hin as [Hin | Hin].
           ++ destruct (Hsent c e Hin) as (-> & Hk).
              exists s. split; [now left|]. auto.
           ++ destruct (Hout c e Hin) as (s' & Hs' & He & Hnm & Hk).
              exists s'. split; [now right|]. split; [exact He|]. split; [|exact Hk].
              intros Hm. apply Hnm. apply Hmk. now left.
        -- intros Hr s' Hin. apply elem_of_cons in Hin as [-> | Hin]; [|now apply Hall].
           unfold marked. destruct Hpre as [k Hk]. rewrite Hk, fmap_app.
           apply elem_of_app. left. apply (Hmk s stamp). now right.
        -- intros s' Hin Hnm (g & c & Hg & Hc).
           assert (Hname : us_name s' <> us_name s).
           { intros Heq. apply (Hquiet g c Hg). now rewrite <- Heq. }
           apply elem_of_cons in Hin as [-> | Hin]; [congruence|].
           apply Hraise; [exact Hin | | eauto].
           intros Hm. apply Hmk in Hm as [Hm | Hm]; [contradiction|]. congruence.
      * split; [now destruct d|]. split; [reflexivity|]. split; [|split; [|split]].
        -- intros c e Hin. destruct (Hsent c e Hin) as (-> & Hk).
           exists s. split; [now left|]. auto.
        -- discriminate.
        -- intros Hok. exfalso.
           destruct (deliver_sale_returns (chan (us_name s)) channels_info (sale_embed_of s)
                       (Hok (us_name s))) as [Hr _].
           rewrite Hdel in Hr. discriminate.
        -- intros s' _ Hnm _. exact Hnm.
Qed.

Lemma announce_sales_all_marked (chan : string -> Z -> Z -> channel_state)
    (channels_info : list (Z * Z * bool))
    (stamp : string) (upcoming : list upcoming_sale) (d : db) :
  (forall s, s ∈ upcoming -> marked d s) ->
  announce_sales no_sale_faults chan channels_info stamp upcoming d = (d, [], Returned tt).
Proof.
  induction upcoming as [|s rest IH]; intros Hall; [reflexivity|].
  cbn [announce_sales no_sale_faults on_is_sale_notified on_mark_sale_notified].
  rewrite is_sale_notified_spec.
  assert (Hs : marked d s) by (apply Hall; now left).
  unfold marked in Hs. rewrite (bool_decide_eq_true_2 _ Hs).
  apply IH. intros s' Hin. apply Hall. now right.
Qed.

Lemma channels_sends_succeed (chan : Z -> Z -> channel_state) (d : db)
    (l : list (Z * Z * bool)) :
  get_all_notification_channels NoFault d = (d, Returned l) ->
  (forall g c setup, server_settings d !! g = Some (ServerSetting c setup true) ->
     chan g c <> SendRaises) ->
  sends_succeed chan l.
Proof.
  intros Hget Hok g c Hin. apply (channels_spec d g c true l Hget) in Hin as [setup Hrow].
  now apply (Hok g c setup).
Qed.

(** X16: a sale is announced at most once for its year: after a run of
    [check_sales_calendar] with the store available in which no [send]
    to a channel that enables sale notifications raised, a second run
    over the same upcoming sales sends nothing and changes nothing,
    whatever the channels do then. *)
Theorem check_sales_calendar_once (chan chan' : string -> Z -> Z -> channel_state)
    (now : datetime) (stamp stamp' : string) (d : db) :
  (forall n g c setup, server_settings d !! g = Some (ServerSetting c setup true) ->
     chan n g c <> SendRaises) ->
  let '(d1, out1) := check_sales_calendar no_sale_faults chan now stamp d in
  check_sales_calendar no_sale_faults chan' now stamp' d1 = (d1, []).
Proof.
  intros Hok.
  unfold check_sales_calendar. destruct (check_upcoming_sales now) as [|s upcoming]; [reflexivity|].
  cbn [no_sale_faults on_get_channels].
  destruct (get_all_notification_channels NoFault d) as [d0 r] eqn:Hget.
  assert (d0 = d /\ exists l, r = Returned l) as [-> [l ->]].
  { revert Hget. unfold get_all_notification_channels, with_connection. intros [= <- <-]. eauto. }
  assert (Hsucc : forall n, sends_succeed (chan n) l).
  { intros n. exact (channels_sends_succeed (chan n) d l Hget (Hok n)). }
  revert Hget. unfold get_all_notification_channels, with_connection.
  intros [= Hch]. destruct l as [|c cs].
  - now rewrite Hch.
  - pose proof (announce_sales_spec chan (c :: cs) stamp (s :: upcoming) d) as Hspec.
    destruct (announce_sales no_sale_faults chan (c :: cs) stamp (s :: upcoming) d)
      as [[d1 out1] r1].
    destruct Hspec as (Hsame & _ & _ & Hall & Hret & _).
    assert (Hset : server_settings d1 = server_settings d) by (now rewrite <- Hsame).
    rewrite Hset, Hch. rewrite announce_sales_all_marked; [reflexivity|].
    apply Hall. now apply Hret.
Qed.

Lemma check_sales_calendar_once_witness :
  let now := DateTime 2025 3 11 10 0 0 0 in
  let d := fst (set_notification_channel NoFault 1 10 true "t" empty_db) in
  let '(d1, out1) := check_sales_calendar no_sale_faults (fun _ _ _ => Delivers) now "t1" d in
  check_sales_calendar no_sale_faults (fun _ _ _ => SendRaises) now "t2" d1 = (d1, []).
Proof.
  apply (check_sales_calendar_once (fun _ _ _ => Delivers) (fun _ _ _ => SendRaises)
           (DateTime 2025 3 11 10 0 0 0) "t1" "t2"
           (fst (set_notification_channel NoFault 1 10 true "t" empty_db))).
  intros n g c setup _. discriminate.
Defined.

(** X17: what a run of [check_sales_calendar] with the store available
    does.  Without a configured channel it changes nothing, so the sales
    stay due.  An upcoming sale that was due and whose [send] raises at a
    channel that enables sale notifications is not marked: it is due
    again at the next run.  With a channel configured and no raising
    [send], every upcoming sale is marked afterwards, whether or not any
    channel received it.  Every message sent is the embed of an upcoming
    sale that was not marked before, to a channel the bot resolves,
    whose [send] delivers and whose row enables sale notifications. *)
Theorem check_sales_calendar_effect (chan : string -> Z -> Z -> channel_state)
    (now : datetime) (stamp : string) (d : db) :
  let '(d', out) := check_sales_calendar no_sale_faults chan now stamp d in
  (server_settings d = ∅ -> d' = d /\ out = []) /\
  (forall s, s ∈ check_upcoming_sales now ->
     is_sale_notified NoFault (us_name s) (year (us_date s)) d = (d, Returned false) ->
     (exists g c setup, server_settings d !! g = Some (ServerSetting c setup true) /\
                        chan (us_name s) g c = SendRaises) ->
     is_sale_notified NoFault (us_name s) (year (us_date s)) d' = (d', Returned false)) /\
  (server_settings d <> ∅ ->
   (forall n g c setup, server_settings d !! g = Some (ServerSetting c setup true) ->
      chan n g c <> SendRaises) ->
   forall s, s ∈ check_upcoming_sales now ->
     is_sale_notified NoFault (us_name s) (year (us_date s)) d' = (d', Returned true)) /\
  (forall c e, (c, e) ∈ out ->
     exists s, s ∈ check_upcoming_sales now /\ e = sale_embed_of s /\
       is_sale_notified NoFault (us_name s) (year (us_date s)) d = (d, Returned false) /\
       exists g setup, server_settings d !! g = Some (ServerSetting c setup true) /\
                       chan (us_name s) g c = Delivers).
Proof.
  unfold check_sales_calendar. generalize (check_upcoming_sales now). intros upcoming.
  cbn [no_sale_faults on_get_channels].
  destruct (get_all_notification_channels NoFault d) as [d0 r] eqn:Hget.
  assert (d0 = d /\ exists l, r = Returned l) as [-> [l ->]].
  { revert Hget. unfold get_all_notification_channels, with_connection. intros [= <- <-]. eauto. }
  destruct upcoming as [|s rest].
  { split; [auto|]. split; [auto|]. split.
    - intros _ _ s Hin. inversion Hin.
    - intros c e Hin. inversion Hin. }
  destruct l as [|c0 cs].
  { split; [auto|]. split; [auto|]. split.
    - intros Hne. exfalso. revert Hget.
      unfold get_all_notification_channels, with_connection. intros [= Hl].
      apply fmap_nil_inv in Hl. apply map_to_list_empty_iff in Hl. contradiction.
    - intros c e Hin. inversion Hin. }
  pose proof (announce_sales_spec chan (c0 :: cs) stamp (s :: rest) d) as Hspec.
  destruct (announce_sales no_sale_faults chan (c0 :: cs) stamp (s :: rest) d)
    as [[d' out] r'].
  destruct Hspec as (Hsame & _ & Hout & Hall & Hret & Hraise). split; [|split; [|split]].
  - intros Hempty. exfalso. revert Hget.
    unfold get_all_notification_channels, with_connection. rewrite Hempty, map_to_list_empty.
    discriminate.
  - intros s' Hin Hdue (g & c & setup & Hrow & Hc).
    rewrite is_sale_notified_spec in Hdue. rewrite is_sale_notified_spec.
    f_equal. f_equal. apply bool_decide_eq_false. apply (Hraise s' Hin).
    + intros Hm. unfold marked in Hm. rewrite (bool_decide_eq_true_2 _ Hm) in Hdue.
      discriminate.
    + exists g, c. split; [|exact Hc]. apply (channels_spec d g c true _ Hget). eauto.
  - intros _ Hok s' Hin. rewrite is_sale_notified_spec. f_equal. f_equal.
    apply bool_decide_eq_true. apply Hall; [|exact Hin].
    apply Hret. intros n. exact (channels_sends_succeed (chan n) d _ Hget (Hok n)).
  - intros c e Hin. destruct (Hout c e Hin) as (s' & Hs' & He & Hnm & g & Hk & Hg).
    exists s'. split; [exact Hs'|]. split; [exact He|]. split.
    + rewrite is_sale_notified_spec. f_equal. f_equal. now apply bool_decide_eq_false.
    + apply (channels_spec d g c true _ Hget) in Hg as [setup Hrow]. eauto.
Qed.

(** A run in which the only [send] raises: nothing is delivered and the
    sale is not marked. *)
Lemma raising_send_leaves_sale_due :
  let now := DateTime 2025 3 11 10 0 0 0 in
  let d := fst (set_notification_channel NoFault 1 10 true "t" empty_db) in
  check_upcoming_sales now
  = [UpcomingSale "春季特賣" (midnight 2025 3 14) 2 "🌸" 14] /\
  check_sales_calendar no_sale_faults (fun _ _ _ => SendRaises) now "t1" d = (d, []) /\
  is_sale_notified NoFault "春季特賣" 2025 d = (d, Returned false).
Proof. cbv zeta. split; [|split]; vm_compute; reflexivity. Qed.

(** X18: when the look-up of earlier announcements fails inside
    [is_sale_notified], the function answers [False], so every upcoming
    sale is announced, marked or not, to every channel that enables sale
    notifications and whose [send] delivers, provided no [send] to such
    a channel raises. *)
Theorem failed_lookup_announces_again (chan : string -> Z -> Z -> channel_state)
    (now : datetime) (stamp : string) (d : db) (s : upcoming_sale) (g c : Z)
    (setup : string) :
  s ∈ check_upcoming_sales now ->
  server_settings d !! g = Some (ServerSetting c setup true) ->
  chan (us_name s) g c = Delivers ->
  (forall n g' c' setup', server_settings d !! g' = Some (ServerSetting c' setup' true) ->
     chan n g' c' <> SendRaises) ->
  (c, sale_embed_of s) ∈
    snd (check_sales_calendar
           (SaleFaults NoFault (fun _ => ExecFault) (fun _ => NoFault)) chan now stamp d).
Proof.
  unfold check_sales_calendar. generalize (check_upcoming_sales now).
  intros upcoming Hs Hrow Hk Hok.
  cbn [on_get_channels].
  destruct (get_all_notification_channels NoFault d) as [d0 r] eqn:Hget.
  assert (d0 = d /\ exists l, r = Returned l) as [-> [l ->]].
  { revert Hget. unfold get_all_notification_channels, with_connection. intros [= <- <-]. eauto. }
  assert (Hin : (g, c, true) ∈ l) by (apply (channels_spec d g c true l Hget); eauto).
  assert (Hsucc : forall n, sends_succeed (chan n) l).
  { intros n. exact (channels_sends_succeed (chan n) d l Hget (Hok n)). }
  destruct upcoming as [|s0 rest]; [inversion Hs|].
  destruct l as [|c0 cs]; [inversion Hin|].
  revert Hs. generalize (s0 :: rest). generalize (c0 :: cs) Hin Hsucc. clear -Hk.
  intros l Hin Hsucc upcoming.
  revert d. induction upcoming as [|s' rest IH]; intros d Hs; [inversion Hs|].
  cbn [announce_sales on_is_sale_notified on_mark_sale_notified].
  unfold is_sale_notified at 1. unfold with_connection at 1.
  destruct (deliver_sale_returns (chan (us_name s')) l (sale_embed_of s') (Hsucc (us_name s')))
    as [Hret Hall].
  destruct (deliver_sale (chan (us_name s')) l (sale_embed_of s')) as [sent rd].
  cbn [fst snd] in *. subst rd.
  destruct (mark_sale_notified NoFault (us_name s') (year (us_date s')) stamp d)
    as [d2 r2] eqn:Hmark.
  assert (exists u, r2 = Returned u) as [u ->].
  { revert Hmark. unfold mark_sale_notified, with_connection.
    destruct (existsb _ _); intros [= _ <-]; eauto. }
  apply elem_of_cons in Hs as [-> | Hs].
  - destruct (announce_sales _ chan l stamp rest d2) as [[d3 out] r3]. cbn.
    apply elem_of_app. left. now apply (Hall g c).
  - specialize (IH d2 Hs).
    destruct (announce_sales _ chan l stamp rest d2) as [[d3 out] r3]. cbn in *.
    apply elem_of_app. now right.
Qed.

(** ** What a new low reports *)

(** X19: whenever [check_historical_low] reports a new low together with
    a previous price, that price is the minimum that was stored, the
    current price is above zero and strictly below it, and the current
    price is the stored minimum afterwards. *)
Theorem new_low_report_is_a_real_drop (f : fault) (app_id : Z) (region : string)
    (p : Q) (now : string) (d : db) (old_price drop : Q) :
  snd (check_historical_low f app_id region p now d) = Returned (true, Some old_price, drop) ->
  stored_low d app_id region = Some old_price /\
  stored_low (fst (check_historical_low f app_id region p now d)) app_id region = Some p /\
  (0 < p /\ p < old_price)%Q.
Proof.
  unfold check_historical_low, with_connection, stored_low.
  destruct f; cbn; try discriminate.
  destruct (historical_low d !! (app_id, region)) as [row|] eqn:Hrow; cbn; [|discriminate].
  destruct (Qlt_bool p (lowest_price row)) eqn:Hlt; cbn; [|discriminate].
  destruct (Qlt_bool 0 p) eqn:Hpos; cbn; [|discriminate].
  intros [= <- <-]. apply Qlt_bool_iff in Hlt, Hpos.
  rewrite lookup_insert_eq. repeat split; assumption.
Qed.

Lemma new_low_report_is_a_real_drop_witness :
  let d := set_historical_low {[ (730, "tw") := LowRow 100 "t0" ]} empty_db in
  stored_low d 730 "tw" = Some 100%Q /\
  stored_low (fst (check_historical_low NoFault 730 "tw" 90 "t1" d)) 730 "tw" = Some 90%Q /\
  (0 < 90 /\ 90 < 100)%Q.
Proof.
  apply (new_low_report_is_a_real_drop NoFault 730 "tw" 90 "t1"
           (set_historical_low {[ (730, "tw") := LowRow 100 "t0" ]} empty_db)
           100 (((100 - 90) / 100) * 100)%Q).
  reflexivity.
Defined.

(** X20: for a pair that starts without a row, the stored minimum after
    any run is a price that was actually observed, is not above the
    first observed price and is not above any later observed price that
    is greater than zero. *)
Theorem stored_low_is_an_observed_lower_bound (app_id : Z) (name : string)
    (obs : list (game_info * string)) (d : db) (l : Q) :
  historical_low d !! (app_id, "tw") = None ->
  stored_low (fst (monitor_game_seq app_id name obs d)) app_id "tw" = Some l ->
  exists p0 ps,
    prices_of obs = p0 :: ps /\
    In l (p0 :: ps) /\
    (l <= p0)%Q /\
    (forall p, In p ps -> (0 < p)%Q -> (l <= p)%Q).
Proof.
  intros Hnone Hl.
  rewrite stored_low_from_no_row in Hl by (unfold stored_low; now rewrite Hnone).
  destruct (prices_of obs) as [|p0 ps]; [discriminate|]. inversion Hl; subst. clear Hl.
  exists p0, ps. split; [reflexivity|]. split; [|split].
  - destruct (lowest_of_attained (positive_prices ps) p0) as [Heq | Hin]; [now left|].
    right. unfold positive_prices in Hin. apply filter_In in Hin. tauto.
  - apply lowest_of_le_start.
  - intros p Hin Hpos. apply lowest_of_lower_bound. right.
    unfold positive_prices. apply filter_In. split; [exact Hin|]. now apply Qlt_bool_iff.
Qed.

Lemma stored_low_is_an_observed_lower_bound_witness :
  exists p0 ps,
    prices_of [(paid 10000 "TWD", "t0"); (paid 0 "TWD", "t1"); (paid 9000 "TWD", "t2")]
      = p0 :: ps /\
    In (9000 # 100) (p0 :: ps) /\
    (9000 # 100 <= p0)%Q /\
    (forall p, In p ps -> (0 < p)%Q -> (9000 # 100 <= p)%Q).
Proof.
  apply (stored_low_is_an_observed_lower_bound 730 "E"
           [(paid 10000 "TWD", "t0"); (paid 0 "TWD", "t1"); (paid 9000 "TWD", "t2")]
           empty_db (9000 # 100)).
  - reflexivity.
  - vm_compute. reflexivity.
Defined.

(** A stored minimum of zero is reachable: the first observation of a
    pair is stored whatever its price, so a paid answer priced 0.00
    leaves a row holding zero, and at a later positive price the
    [/歷史低價] command divides by it. *)
Lemma low_status_raises_after_zero_price :
  let d := fst (monitor_game_seq 730 "E" [(paid 0 "TWD", "t0"); (paid 9500 "TWD", "t1")]
                  empty_db) in
  stored_low d 730 "tw" = Some (inject_Z 0 / 100)%Q /\
  low_status_of (inject_Z 9500 / 100)%Q (inject_Z 0 / 100)%Q = StatusRaises.
Proof. cbv zeta. split; vm_compute; reflexivity. Qed.

(** X21: once the loop has processed a paid answer with a price above
    zero, the stored minimum of region "tw" is not above that price, so
    the [/歷史低價] command run at that price never skips the status
    line: it reads "at the lowest" exactly when the price equals the
    stored minimum, the computation of the percentage raises exactly
    when the stored minimum is zero, and otherwise the line shows the
    difference from the stored minimum. *)
Theorem low_status_after_check (app_id : Z) (name : string) (info : game_info)
    (po : price_overview) (now : string) (d : db) :
  default false (gi_is_free info) = false ->
  gi_price_overview info = Some po ->
  let p := (inject_Z (final po) / 100)%Q in
  (0 < p)%Q ->
  exists l,
    stored_low (fst (monitor_game no_faults app_id name info now d)) app_id "tw" = Some l /\
    (l <= p)%Q /\
    low_status_of p l <> NoStatus /\
    (low_status_of p l = AtLowest <-> (p == l)%Q) /\
    (low_status_of p l = StatusRaises <-> (l == 0)%Q) /\
    (~ (p == l)%Q -> ~ (l == 0)%Q ->
     exists diff diff_percent, low_status_of p l = AboveLowest diff diff_percent).
Proof.
  intros Hfree Hp p Hpos.
  pose proof (monitor_game_stored_low d app_id name info now) as Hlow.
  unfold observed_price in Hlow. rewrite Hfree, Hp in Hlow.
  cbn [fmap option_fmap option_map] in Hlow. fold p in Hlow.
  pose proof Hpos as Hposb. apply Qlt_bool_iff in Hposb. rewrite Hposb in Hlow.
  eexists. split; [exact Hlow|].
  assert (Hle : (match stored_low d app_id "tw" with Some l => Qmin l p | None => p end <= p)%Q).
  { destruct (stored_low d app_id "tw"); [apply Q.le_min_r | apply Qle_refl]. }
  revert Hle. generalize (match stored_low d app_id "tw" with
                          | Some l => Qmin l p | None => p end).
  intros l Hle. split; [exact Hle|].
  unfold low_status_of.
  destruct (Qeq_bool p l) eqn:Heq.
  - apply Qeq_bool_iff in Heq. split; [discriminate|]. split; [tauto|]. split.
    + split; [discriminate|]. intros Hl0. exfalso. rewrite Heq, Hl0 in Hpos.
      now apply (Qlt_irrefl 0).
    + intros Hne. contradiction.
  - assert (Hneq : ~ (p == l)%Q).
    { intros H. apply Qeq_bool_iff in H. congruence. }
    replace (Qlt_bool l p) with true.
    + destruct (Qeq_bool l 0) eqn:Hz.
      * apply Qeq_bool_iff in Hz. split; [discriminate|].
        split; [split; [discriminate | contradiction]|].
        split; [tauto | contradiction].
      * assert (Hnz : ~ (l == 0)%Q).
        { intros H. apply Qeq_bool_iff in H. congruence. }
        split; [discriminate|]. split; [split; [discriminate | contradiction]|].
        split; [split; [discriminate | contradiction] | eauto].
    + symmetry. apply Qlt_bool_iff. apply Qle_lteq in Hle as [Hlt | Heq']; [exact Hlt|].
      exfalso. apply Hneq. now symmetry.
Qed.

Lemma low_status_after_check_witness :
  exists l,
    stored_low (fst (monitor_game no_faults 730 "E" (paid 9500 "TWD") "t1"
                       (set_historical_low {[ (730, "tw") := LowRow 90 "t0" ]} empty_db)))
      730 "tw" = Some l /\
    (l <= inject_Z 9500 / 100)%Q /\
    low_status_of (inject_Z 9500 / 100)%Q l <> NoStatus /\
    (low_status_of (inject_Z 9500 / 100)%Q l = AtLowest <-> (inject_Z 9500 / 100 == l)%Q) /\
    (low_status_of (inject_Z 9500 / 100)%Q l = StatusRaises <-> (l == 0)%Q) /\
    (~ (inject_Z 9500 / 100 == l)%Q -> ~ (l == 0)%Q ->
     exists diff diff_percent,
       low_status_of (inject_Z 9500 / 100)%Q l = AboveLowest diff diff_percent).
Proof.
  apply (low_status_after_check 730 "E" (paid 9500 "TWD") (PriceOverview 9500 "TWD" None) "t1"
           (set_historical_low {[ (730, "tw") := LowRow 90 "t0" ]} empty_db));
    reflexivity.
Defined.

(** ** The cheapest region *)


Lemma cheapest_fold_spec (prices : list (string * region_price)) :
  match fold_left cheapest_step prices (None, None) with
  | (None, None) => forall e, e ∈ prices -> ~ paid_positive (snd e)
  | (Some m, Some r) =>
      exists l1 info l2,
        prices = l1 ++ (r, info) :: l2 /\
        rp_is_free info = false /\ rp_price info = m /\ (0 < m)%Q /\
        (forall e, e ∈ l1 -> paid_positive (snd e) -> (m < rp_price (snd e))%Q) /\
        (forall e, e ∈ l2 -> paid_positive (snd e) -> (m <= rp_price (snd e))%Q)
  | _ => False
  end.
Proof.
  induction prices as [|[name entry] prices IH] using rev_ind.
  - cbn. intros e He. inversion He.
  - rewrite fold_left_app. cbn [fold_left].
    destruct (fold_left cheapest_step prices (None, None)) as [[m|] [r|]];
      try contradiction; unfold cheapest_step.
    + destruct IH as (l1 & info & l2 & -> & Hpaid & Hm & Hpos & Hbefore & Hafter).
      assert (Hkeep : (~ paid_positive entry \/ (m <= rp_price entry)%Q) ->
                exists l1' info' l2',
                  (l1 ++ (r, info) :: l2) ++ [(name, entry)] = l1' ++ (r, info') :: l2' /\
                  rp_is_free info' = false /\ rp_price info' = m /\ (0 < m)%Q /\
                  (forall e, e ∈ l1' -> paid_positive (snd e) -> (m < rp_price (snd e))%Q) /\
                  (forall e, e ∈ l2' -> paid_positive (snd e) -> (m <= rp_price (snd e))%Q)).
      { intros Hentry. exists l1, info, (l2 ++ [(name, entry)]). rewrite <- app_assoc. cbn.
        repeat split; try assumption. intros e He Hpp.
        apply elem_of_app in He as [He | He]; [now apply Hafter|].
        apply list_elem_of_singleton in He. subst e. cbn in *.
        destruct Hentry as [Hno | Hle]; [contradiction | exact Hle]. }
      destruct (rp_is_free entry) eqn:Hfree.
      { apply Hkeep. left. intros [Hf _]. congruence. }
      destruct (Qlt_bool 0 (rp_price entry)) eqn:Hp; cbn [andb].
      * destruct (Qlt_bool (rp_price entry) m) eqn:Hlt.
        -- apply Qlt_bool_iff in Hp, Hlt.
           exists (l1 ++ (r, info) :: l2), entry, []. repeat split; try assumption.
           ++ intros e He Hpp. apply elem_of_app in He as [He | He].
              ** eapply Qlt_trans; [exact Hlt | now apply Hbefore].
              ** apply elem_of_cons in He as [-> | He]; cbn; [now rewrite Hm|].
                 eapply Qlt_le_trans; [exact Hlt | now apply Hafter].
           ++ intros e He. inversion He.
        -- apply Qlt_bool_false_iff in Hlt. apply Hkeep. now right.
      * apply Hkeep. left. intros [_ Hpp]. apply Qlt_bool_iff in Hpp. congruence.
    + assert (Hkeep : ~ paid_positive entry ->
                forall e, e ∈ prices ++ [(name, entry)] -> ~ paid_positive (snd e)).
      { intros Hentry e He. apply elem_of_app in He as [He | He]; [now apply IH|].
        apply list_elem_of_singleton in He. now subst e. }
      destruct (rp_is_free entry) eqn:Hfree.
      { apply Hkeep. intros [Hf _]. congruence. }
      destruct (Qlt_bool 0 (rp_price entry)) eqn:Hp; cbn [andb].
      * apply Qlt_bool_iff in Hp. exists prices, entry, []. repeat split; try assumption.
        -- intros e He Hpp. exfalso. now apply (IH e).
        -- intros e He. inversion He.
      * apply Hkeep. intros [_ Hpp]. apply Qlt_bool_iff in Hpp. congruence.
Qed.

(** X22: the region named in the footer of [/價格] is the first region, in
    the order of the answers, whose game is not free and whose price is
    the lowest of the prices above zero; free regions and prices of zero
    are never named, and no region is named when there is no other. *)
Theorem cheapest_region_is_first_minimum (prices : list (string * region_price)) :
  (forall e, e ∈ prices -> fst e <> "") ->
  match cheapest_region prices with
  | Some r =>
      exists l1 info l2,
        prices = l1 ++ (r, info) :: l2 /\
        rp_is_free info = false /\ (0 < rp_price info)%Q /\
        (forall e, e ∈ l1 -> rp_is_free (snd e) = false -> (0 < rp_price (snd e))%Q ->
           (rp_price info < rp_price (snd e))%Q) /\
        (forall e, e ∈ l2 -> rp_is_free (snd e) = false -> (0 < rp_price (snd e))%Q ->
           (rp_price info <= rp_price (snd e))%Q)
  | None =>
      forall e, e ∈ prices -> rp_is_free (snd e) = true \/ (rp_price (snd e) <= 0)%Q
  end.
Proof.
  intros Hnames. unfold cheapest_region.
  pose proof (cheapest_fold_spec prices) as Hfold.
  destruct (fold_left cheapest_step prices (None, None)) as [[m|] [r|]];
    try contradiction; cbn [snd].
  - destruct Hfold as (l1 & info & l2 & Heq & Hpaid & Hm & Hpos & Hbefore & Hafter).
    rewrite bool_decide_eq_false_2.
    + exists l1, info, l2. rewrite Hm. repeat split; try assumption.
      * intros e He Hf Hp. apply Hbefore; [exact He | now split].
      * intros e He Hf Hp. apply Hafter; [exact He | now split].
    + apply (Hnames (r, info)). rewrite Heq. apply elem_of_app. right. now left.
  - intros e He. specialize (Hfold e He). unfold paid_positive in Hfold.
    destruct (rp_is_free (snd e)); [now left|]. right.
    apply Qnot_lt_le. intros Hlt. apply Hfold. now split.
Qed.

Lemma cheapest_region_is_first_minimum_witness :
  let prices :=
    [ ("台灣", RegionPrice "tw" "台灣" 300 (Some 300%Q) "TWD" 0 false);
      ("美國", RegionPrice "us" "美國" 0 None "FREE" 0 true);
      ("日本", RegionPrice "jp" "日本" 10 (Some 20%Q) "USD" 50 false);
      ("香港", RegionPrice "hk" "香港" 10 (Some 10%Q) "HKD" 0 false) ] in
  cheapest_region prices = Some "日本" /\
  match cheapest_region prices with
  | Some r =>
      exists l1 info l2,
        prices = l1 ++ (r, info) :: l2 /\
        rp_is_free info = false /\ (0 < rp_price info)%Q /\
        (forall e, e ∈ l1 -> rp_is_free (snd e) = false -> (0 < rp_price (snd e))%Q ->
           (rp_price info < rp_price (snd e))%Q) /\
        (forall e, e ∈ l2 -> rp_is_free (snd e) = false -> (0 < rp_price (snd e))%Q ->
           (rp_price info <= rp_price (snd e))%Q)
  | None =>
      forall e, e ∈ prices -> rp_is_free (snd e) = true \/ (rp_price (snd e) <= 0)%Q
  end.
Proof.
  cbv zeta. split; [vm_compute; reflexivity|].
  apply (cheapest_region_is_first_minimum
    [ ("台灣", RegionPrice "tw" "台灣" 300 (Some 300%Q) "TWD" 0 false);
      ("美國", RegionPrice "us" "美國" 0 None "FREE" 0 true);
      ("日本", RegionPrice "jp" "日本" 10 (Some 20%Q) "USD" 50 false);
      ("香港", RegionPrice "hk" "香港" 10 (Some 10%Q) "HKD" 0 false) ]).
  intros e He. repeat (apply elem_of_cons in He as [-> | He]; [discriminate|]).
  inversion He.
Defined.

Lemma fetch_price_spec (code name : string) (r : response) (info : region_price) :
  fetch_price code name r = Some info ->
  rp_code info = code /\ rp_name info = name /\
  exists data, r = Response 200 true (Some data) /\
    (rp_is_free info = gd_is_free data) /\
    (gd_is_free data = true -> rp_price info = 0%Q /\ rp_currency info = "FREE") /\
    (gd_is_free data = false ->
     exists po, gd_price_overview data = Some po /\
       rp_price info = (inject_Z (default 0%Z (oj_final po)) / 100)%Q).
Proof.
  unfold fetch_price. destruct r as [|status success [data|]]; try discriminate.
  destruct (status =? 200) eqn:Hs; [|discriminate]. apply Z.eqb_eq in Hs. subst status.
  destruct success; cbn [andb]; [|discriminate].
  destruct (gd_is_free data) eqn:Hfree.
  - intros [= <-]. cbn. split; [reflexivity|]. split; [reflexivity|].
    exists data. rewrite Hfree. split; [reflexivity|]. split; [reflexivity|].
    split; [auto | discriminate].
  - destruct (gd_price_overview data) as [po|] eqn:Hpo; [|discriminate].
    intros [= <-]. cbn. split; [reflexivity|]. split; [reflexivity|].
    exists data. rewrite Hfree. split; [reflexivity|]. split; [reflexivity|].
    split; [discriminate | intros _; exists po; split; [exact Hpo | reflexivity]].
Qed.

Lemma multi_region_prices_spec (regions : list (string * string))
    (respond : string -> response) (n : string) (info : region_price) :
  (n, info) ∈ multi_region_prices regions respond <->
  exists code, (code, n) ∈ regions /\ fetch_price code n (respond code) = Some info.
Proof.
  unfold multi_region_prices. rewrite list_elem_of_omap. split.
  - intros ([code name] & Hin & Hsome).
    destruct (fetch_price code name (respond code)) as [result|] eqn:Hfetch; [|discriminate].
    cbn in Hsome. inversion Hsome; subst.
    destruct (fetch_price_spec _ _ _ _ Hfetch) as (_ & Hname & _). rewrite Hname in *.
    eauto.
  - intros (code & Hin & Hfetch). exists (code, n). split; [exact Hin|].
    rewrite Hfetch. cbn. destruct (fetch_price_spec _ _ _ _ Hfetch) as (_ & -> & _).
    reflexivity.
Qed.

(** X23: the region named by [/價格] for the nine regions asked is one
    whose request was answered with status 200 and [success], for a game
    that is not free there, with a [final] price above zero: a region
    that did not answer, answered with an error, or gives the game for
    free is never named the cheapest. *)
Theorem cheapest_region_answered (respond : string -> response) (r : string) :
  cheapest_region (get_multi_region_prices respond) = Some r ->
  exists code data po,
    (code, r) ∈ REGIONS /\
    respond code = Response 200 true (Some data) /\
    gd_is_free data = false /\
    gd_price_overview data = Some po /\
    0 < default 0 (oj_final po).
Proof.
  intros Hcheap.
  assert (Hnames : forall e, e ∈ get_multi_region_prices respond -> fst e <> "").
  { intros [n info] He. apply multi_region_prices_spec in He as (code & Hin & _).
    unfold REGIONS in Hin. cbn.
    repeat (apply elem_of_cons in Hin as [[= _ ->] | Hin]; [discriminate|]).
    inversion Hin. }
  pose proof (cheapest_region_is_first_minimum _ Hnames) as Hmin.
  rewrite Hcheap in Hmin.
  destruct Hmin as (l1 & info & l2 & Heq & Hpaid & Hpos & _).
  assert (Hin : (r, info) ∈ get_multi_region_prices respond).
  { rewrite Heq. apply elem_of_app. right. now left. }
  apply multi_region_prices_spec in Hin as (code & Hin & Hfetch).
  destruct (fetch_price_spec _ _ _ _ Hfetch) as (_ & _ & data & Hresp & Hfree & _ & Hprice).
  rewrite Hpaid in Hfree. symmetry in Hfree.
  destruct (Hprice Hfree) as (po & Hpo & Hval).
  exists code, data, po. repeat split; try assumption.
  rewrite Hval in Hpos. revert Hpos. unfold Qlt, Qdiv, Qmult, Qinv. cbn. lia.
Qed.

Lemma cheapest_region_answered_witness :
  exists code data po,
    (code, "台灣") ∈ REGIONS /\
    (if String.eqb code "tw"
     then Response 200 true
            (Some (GameData false (Some (OverviewJson (Some 39900) (Some 59900) (Some "TWD")
                                           (Some 33)))))
     else NoResponse) = Response 200 true (Some data) /\
    gd_is_free data = false /\
    gd_price_overview data = Some po /\
    0 < default 0 (oj_final po).
Proof.
  apply (cheapest_region_answered
           (fun code =>
              if String.eqb code "tw"
              then Response 200 true
                     (Some (GameData false (Some (OverviewJson (Some 39900) (Some 59900)
                                                    (Some "TWD") (Some 33)))))
              else NoResponse) "台灣").
  vm_compute. reflexivity.
Defined.

Lemma failed_lookup_announces_again_witness :
  let now := DateTime 2025 3 11 10 0 0 0 in
  let s := UpcomingSale "春季特賣" (midnight 2025 3 14) 2 "🌸" 14 in
  let d := fst (mark_sale_notified NoFault "春季特賣" 2025 "t0"
                  (fst (set_notification_channel NoFault 1 10 true "t" empty_db))) in
  (10, sale_embed_of s) ∈
    snd (check_sales_calendar
           (SaleFaults NoFault (fun _ => ExecFault) (fun _ => NoFault))
           (fun _ _ _ => Delivers) now "t1" d).
Proof.
  apply (failed_lookup_announces_again (fun _ _ _ => Delivers) (DateTime 2025 3 11 10 0 0 0) "t1"
           (fst (mark_sale_notified NoFault "春季特賣" 2025 "t0"
                   (fst (set_notification_channel NoFault 1 10 true "t" empty_db))))
           (UpcomingSale "春季特賣" (midnight 2025 3 14) 2 "🌸" 14) 1 10 "t").
  - apply list_elem_of_In. vm_compute. left. reflexivity.
  - reflexivity.
  - reflexivity.
  - intros n g' c' setup' _. discriminate.
Defined.

Lemma start_day_never_due_witness :
  let now := DateTime 2025 3 13 10 0 0 0 in
  let s := UpcomingSale "春季特賣" (midnight 2025 3 14) 0 "🌸" 14 in
  In s (check_upcoming_sales now) /\
  ~ (month (us_date s) = month now /\ day (us_date s) = day now).
Proof.
  cbv zeta. split; [vm_compute; left; reflexivity|].
  apply (start_day_never_due STEAM_SALES_CALENDAR (DateTime 2025 3 13 10 0 0 0)
           (UpcomingSale "春季特賣" (midnight 2025 3 14) 0 "🌸" 14)).
  - vm_compute. split; reflexivity.
  - vm_compute. left. reflexivity.
Defined.
